(** * DataCerebrium client: workflow controller, connection form and report engine

    A shallow embedding of the TypeScript sources:
    - [App] (workflow controller: [handleTest], [handleScan], [handleNewScan]),
    - [ConnectionForm] ([DB_DEFAULTS], [handleDbTypeChange], [canTest], [canScan],
      the edits of its fields, and its mounting by [App]),
    - [ComplianceReport] ([heatmap], [sortedFindings], [groupedFindings], the
      aggregate figures and the section guards of the rendered report; its
      view state and controls: [handleSort], [sortArrow], [toggleTable],
      [expandAll], [collapseAll], [scrollToFindings], [scrollToHighRisk];
      [formatPII]),
    - the data shapes and the download links of [services/api.ts].

    JavaScript notions the sources rely on (truthiness, property lookup on a
    plain object, [Set]/[Map] insertion order, [Array.prototype.sort],
    [try]/[catch]/[finally]) are written out in module [Js].  Strings are
    taken as their UTF-8 bytes: the sources compare strings for equality,
    join them and hand them to [localeCompare]; [formatPII] alone looks at
    characters, and only at ASCII ones. *)

From Stdlib Require Import ZArith QArith List String Ascii Bool Lia Lqa.
From Stdlib Require Import Permutation Sorted.
Import ListNotations.

Local Open Scope string_scope.
Local Open Scope list_scope.
Local Open Scope Z_scope.

(* ===================================================================== *)
(** * JavaScript semantics used by the sources *)
(* ===================================================================== *)

Module Js.

(** ** Completions: a computation returns normally or throws. *)

Inductive Completion (E A : Type) : Type :=
| Normal (a : A)
| Throw (e : E).
Arguments Normal {E A} a.
Arguments Throw {E A} e.

(** What an awaited promise settles to. *)
Inductive Settled (E A : Type) : Type :=
| Fulfilled (a : A)
| Rejected (e : E).
Arguments Fulfilled {E A} a.
Arguments Rejected {E A} e.

(** Exceptions raised by the language itself. *)
Inductive Exn : Type :=
| TypeError (what : string).

(** ** Truthiness of strings: [""] is falsy, every other string is truthy. *)

Definition truthy (s : string) : bool := negb (s =? "")%string.

(** [a || b] on values that are a string or [undefined]: [a] when it is
    truthy, [b] otherwise. *)
Definition orValue (a b : option string) : option string :=
  match a with
  | Some s => if truthy s then a else b
  | None => b
  end.

(** [a || k] where the last operand [k] is a string. *)
Definition or_else (a : option string) (k : string) : string :=
  match orValue a (Some k) with
  | Some s => s
  | None => k
  end.

(** ** Plain objects used as dictionaries.

    An object literal inherits from [Object.prototype]; [o[k]] finds an own
    property first and an inherited one otherwise. *)

Definition objectPrototypeKeys : list string :=
  [ "constructor"; "__proto__"; "__defineGetter__"; "__defineSetter__";
    "__lookupGetter__"; "__lookupSetter__"; "hasOwnProperty"; "isPrototypeOf";
    "propertyIsEnumerable"; "toLocaleString"; "toString"; "valueOf" ].

Definition inherited (k : string) : bool :=
  existsb (String.eqb k) objectPrototypeKeys.

(** Own properties, in creation order. *)
Definition Obj (V : Type) : Type := list (string * V).

Inductive Property (V : Type) : Type :=
| Own (v : V)          (* an own property holding [v] *)
| Inherited            (* a function or object found on Object.prototype *)
| Undefined.
Arguments Own {V} v.
Arguments Inherited {V}.
Arguments Undefined {V}.

Fixpoint getOwn {V : Type} (o : Obj V) (k : string) : option V :=
  match o with
  | [] => None
  | (k', v) :: o' => if (k' =? k)%string then Some v else getOwn o' k
  end.

(** [o[k]] *)
Definition get {V : Type} (o : Obj V) (k : string) : Property V :=
  match getOwn o k with
  | Some v => Own v
  | None => if inherited k then Inherited else Undefined
  end.

(** [o[k] = v] for a key that is an own property (the value is replaced in
    place) or that is not found at all (a new own property is created, last
    in creation order). *)
Fixpoint set {V : Type} (o : Obj V) (k : string) (v : V) : Obj V :=
  match o with
  | [] => [(k, v)]
  | (k', v') :: o' => if (k' =? k)%string then (k', v) :: o' else (k', v') :: set o' k v
  end.

(** ** Array indices: the canonical decimal strings of 0 .. 2^32 - 2. *)

Definition digit (c : ascii) : option N :=
  let n := N_of_ascii c in
  if ((48 <=? n) && (n <=? 57))%N then Some (n - 48)%N else None.

Fixpoint digits (s : string) (acc : N) : option N :=
  match s with
  | EmptyString => Some acc
  | String c s' =>
      match digit c with
      | Some d => digits s' (10 * acc + d)%N
      | None => None
      end
  end.

Definition arrayIndex (s : string) : option N :=
  match s with
  | EmptyString => None
  | String c s' =>
      if (c =? "0")%char then
        match s' with EmptyString => Some 0%N | _ => None end
      else
        match digits s 0%N with
        | Some n => if (n <=? 4294967294)%N then Some n else None
        | None => None
        end
  end.

Definition isArrayIndex (s : string) : bool :=
  match arrayIndex s with Some _ => true | None => false end.

(** ** Numbers as a comparator returns them: a finite value or [NaN]. *)

Inductive number : Type :=
| Num (q : Q)
| NaN.

Definition sub (a b : number) : number :=
  match a, b with
  | Num x, Num y => Num (x - y)
  | _, _ => NaN
  end.

Definition neg (a : number) : number :=
  match a with
  | Num x => Num (- x)
  | NaN => NaN
  end.

(** [SortCompare]: the comparator's result, [NaN] read as [+0], and then only
    its sign. *)
Definition sortCompare (v : number) : comparison :=
  match v with
  | Num q => Qcompare q 0
  | NaN => Eq
  end.

(** ** [Array.prototype.sort(comparefn)].

    The standard requires the sort to be stable and, for a consistent
    comparator, to return the elements in the order the comparator induces;
    that arrangement is unique and [sort] computes it (by insertion, each
    element placed before the first later element it does not exceed).  For a
    comparator that is not consistent (one that returns [NaN] is not) the
    standard leaves the order to the engine; [sort] is then one outcome an
    engine may produce, [NaN] being read as a tie. *)

Section Sort.
Context {A : Type}.
Variable comparefn : A -> A -> number.

Fixpoint insert (x : A) (l : list A) : list A :=
  match l with
  | [] => [x]
  | y :: t =>
      match sortCompare (comparefn x y) with
      | Gt => y :: insert x t
      | _ => x :: y :: t
      end
  end.

Fixpoint sort (l : list A) : list A :=
  match l with
  | [] => []
  | x :: t => insert x (sort t)
  end.

End Sort.

(** ** [Object.entries(o)]: own properties whose keys are array indices first,
    in ascending numeric order, then the other keys in creation order. *)

Definition indexOrder {V : Type} (a b : string * V) : number :=
  match arrayIndex (fst a), arrayIndex (fst b) with
  | Some i, Some j => Num (inject_Z (Z.of_N i) - inject_Z (Z.of_N j))
  | _, _ => Num 0
  end.

Definition entries {V : Type} (o : Obj V) : list (string * V) :=
  sort indexOrder (filter (fun kv => isArrayIndex (fst kv)) o)
  ++ filter (fun kv => negb (isArrayIndex (fst kv))) o.

(** ** [new Set(xs)] and [[...set]]: distinct members in insertion order. *)

Definition setAdd (s : list string) (x : string) : list string :=
  if existsb (String.eqb x) s then s else s ++ [x].

Definition newSet (xs : list string) : list string := fold_left setAdd xs [].

(** ** [new Map(pairs)] with string keys, and [map.get(k)]: a later pair with
    the same key replaces the value of an earlier one. *)

Definition newMap {V : Type} (pairs : list (string * V)) : Obj V :=
  fold_left (fun m kv => set m (fst kv) (snd kv)) pairs [].

Definition mapGet {V : Type} (m : Obj V) (k : string) : option V := getOwn m k.

(** [set.has(x)] and [set.delete(x)] *)
Definition setHas (s : list string) (x : string) : bool :=
  existsb (String.eqb x) s.

Definition setDelete (s : list string) (x : string) : list string :=
  filter (fun y => negb (y =? x)%string) s.

End Js.

(* ===================================================================== *)
(** * Data model ([services/api.ts]) *)
(* ===================================================================== *)

Module ConnectionParams.
Record t : Type := {
  db_type : string;
  host : string;
  port : Z;
  database : string;
  schema_name : string;
  user : string;
  password : string
}.
End ConnectionParams.

Module TestConnectionResponse.
Record t : Type := {
  success : bool;
  message : string;
  tables_found : Z
}.
End TestConnectionResponse.

(** Confidence values arrive as JSON numbers, finite doubles, and are taken
    as the rationals they denote: the sign of a difference of finite doubles
    is the sign of the exact difference. *)
Module PIIFinding.
Record t : Type := {
  table : string;
  column : string;
  pii_type : string;
  confidence : Q;
  classifier : string;
  risk_level : string;
  encryption_status : string;
  purpose : string
}.
End PIIFinding.

Module ConsentMapping.
Record t : Type := {
  table : string;
  column : string;
  purpose : string;
  subject_id_column : option string
}.
End ConsentMapping.

Module HeatmapCell.
Record t : Type := {
  table : string;
  pii_type : string;
  found : bool;
  confidence : Q
}.
End HeatmapCell.

(** Row counts are integers. *)
Module TableStats.
Record t : Type := {
  table : string;
  row_count : Z;
  pii_columns : Z
}.
End TableStats.

Module ScanSummary.
Record t : Type := {
  tables_scanned : Z;
  tables_with_pii : Z;
  total_pii_columns : Z;
  consent_fields : Z;
  high_risk_fields : Z;
  pii_types_found : list string
}.
End ScanSummary.

(** [table_stats] is declared as an array; the report also guards against its
    absence ([data.table_stats ? ... : ...]), so the field is optional here. *)
Module ScanResponse.
Record t : Type := {
  scan_id : string;
  score : Z;
  summary : ScanSummary.t;
  findings : list PIIFinding.t;
  consent_mappings : list ConsentMapping.t;
  heatmap : list HeatmapCell.t;
  table_stats : option (list TableStats.t);
  estimated_data_subjects : Z;
  scanned_at : string
}.
End ScanResponse.

(** What the HTTP client rejects with: an error object with a [message] and,
    when the backend answered, a [response] whose [data] may hold [detail].
    (The client rejects with error objects only, so [err.message] never
    dereferences [null] or [undefined].) *)
Module AxiosError.
Record data_t : Type := { detail : option string }.
Record response_t : Type := { data : option data_t }.
Record t : Type := {
  response : option response_t;
  message : option string
}.

(** [err?.response?.data?.detail] *)
Definition detailOf (err : t) : option string :=
  match response err with
  | Some r => match data r with Some d => detail d | None => None end
  | None => None
  end.

(** [err?.response?.data?.detail || err.message || fallback] *)
Definition displayMessage (err : t) (fallback : string) : string :=
  Js.or_else (Js.orValue (detailOf err) (message err)) fallback.
End AxiosError.

(* ===================================================================== *)
(** * Workflow controller ([App]) *)
(* ===================================================================== *)

Module App.
Import Js.

Inductive AppState : Type := connect | scanning | results.

(** The stored test result: the backend's response as received, or the
    [{ success: false, message }] built from a rejection. *)
Record TestResult : Type := {
  success : bool;
  message : string;
  tables_found : option Z
}.

Definition ofResponse (res : TestConnectionResponse.t) : TestResult :=
  {| success := TestConnectionResponse.success res;
     message := TestConnectionResponse.message res;
     tables_found := Some (TestConnectionResponse.tables_found res) |}.

(** The component's [useState] cells. *)
Record t : Type := {
  state : AppState;
  scanResult : option ScanResponse.t;
  testResult : option TestResult;
  isTesting : bool;
  isScanning : bool;
  progressMsg : string;
  error : option string
}.

Definition initial : t :=
  {| state := connect; scanResult := None; testResult := None;
     isTesting := false; isScanning := false; progressMsg := "";
     error := None |}.

(** ** Handlers: state passing with completions.  A handler that throws keeps
    the state updates made before the throw. *)

Definition Handler (A : Type) : Type := t -> t * Completion AxiosError.t A.

Definition ret {A : Type} (a : A) : Handler A := fun s => (s, Normal a).

Definition bind {A B : Type} (m : Handler A) (k : A -> Handler B) : Handler B :=
  fun s =>
    match m s with
    | (s', Normal a) => k a s'
    | (s', Throw e) => (s', Throw e)
    end.

Notation "x <- m ;; k" := (bind m (fun x => k))
  (at level 61, m at next level, right associativity).
Notation "m ;; k" := (bind m (fun _ => k))
  (at level 61, right associativity).

(** [await p]: resumes with the value, or throws the rejection. *)
Definition await {A : Type} (p : Settled AxiosError.t A) : Handler A :=
  fun s =>
    match p with
    | Fulfilled a => (s, Normal a)
    | Rejected e => (s, Throw e)
    end.

(** [try { body } catch (err) { handler }] *)
Definition try_catch {A : Type} (body : Handler A)
    (handler : AxiosError.t -> Handler A) : Handler A :=
  fun s =>
    match body s with
    | (s', Normal a) => (s', Normal a)
    | (s', Throw e) => handler e s'
    end.

(** [try { body } finally { fin }]: [fin] always runs; the completion is
    [body]'s unless [fin] throws. *)
Definition try_finally {A : Type} (body : Handler A) (fin : Handler unit) : Handler A :=
  fun s =>
    match body s with
    | (s', c) =>
        match fin s' with
        | (s'', Normal _) => (s'', c)
        | (s'', Throw e) => (s'', Throw e)
        end
    end.

Definition setState (v : AppState) : Handler unit := fun s =>
  ({| state := v; scanResult := scanResult s; testResult := testResult s;
      isTesting := isTesting s; isScanning := isScanning s;
      progressMsg := progressMsg s; error := error s |}, Normal tt).

Definition setScanResult (v : option ScanResponse.t) : Handler unit := fun s =>
  ({| state := state s; scanResult := v; testResult := testResult s;
      isTesting := isTesting s; isScanning := isScanning s;
      progressMsg := progressMsg s; error := error s |}, Normal tt).

Definition setTestResult (v : option TestResult) : Handler unit := fun s =>
  ({| state := state s; scanResult := scanResult s; testResult := v;
      isTesting := isTesting s; isScanning := isScanning s;
      progressMsg := progressMsg s; error := error s |}, Normal tt).

Definition setIsTesting (v : bool) : Handler unit := fun s =>
  ({| state := state s; scanResult := scanResult s; testResult := testResult s;
      isTesting := v; isScanning := isScanning s;
      progressMsg := progressMsg s; error := error s |}, Normal tt).

Definition setIsScanning (v : bool) : Handler unit := fun s =>
  ({| state := state s; scanResult := scanResult s; testResult := testResult s;
      isTesting := isTesting s; isScanning := v;
      progressMsg := progressMsg s; error := error s |}, Normal tt).

Definition setProgressMsg (v : string) : Handler unit := fun s =>
  ({| state := state s; scanResult := scanResult s; testResult := testResult s;
      isTesting := isTesting s; isScanning := isScanning s;
      progressMsg := v; error := error s |}, Normal tt).

Definition setError (v : option string) : Handler unit := fun s =>
  ({| state := state s; scanResult := scanResult s; testResult := testResult s;
      isTesting := isTesting s; isScanning := isScanning s;
      progressMsg := progressMsg s; error := v |}, Normal tt).

(** ** [handleTest]: the part run at the click, up to the [await], and the
    part run when [testConnection(params)] settles. *)

Definition handleTest_begin : Handler unit :=
  setIsTesting true ;;
  setTestResult None ;;
  setError None.

Definition handleTest_settle
    (settled : Settled AxiosError.t TestConnectionResponse.t) : Handler unit :=
  try_finally
    (try_catch
       (res <- await settled ;;
        setTestResult (Some (ofResponse res)))
       (fun err =>
          let msg := AxiosError.displayMessage err "Connection failed" in
          setTestResult (Some {| success := false; message := msg;
                                 tables_found := None |})))
    (setIsTesting false).

Definition handleTest
    (settled : Settled AxiosError.t TestConnectionResponse.t) : Handler unit :=
  handleTest_begin ;; handleTest_settle settled.

(** ** [handleScan], split the same way around [await runScan(params)]. *)

Definition handleScan_begin : Handler unit :=
  setIsScanning true ;;
  setError None ;;
  setProgressMsg "Connecting to database..." ;;
  setState scanning ;;
  setProgressMsg "Running PII classifiers across all tables...".

Definition handleScan_settle
    (settled : Settled AxiosError.t ScanResponse.t) : Handler unit :=
  try_finally
    (try_catch
       (res <- await settled ;;
        setScanResult (Some res) ;;
        setState results)
       (fun err =>
          let msg := AxiosError.displayMessage err "Scan failed" in
          setError (Some msg) ;;
          setState connect))
    (setIsScanning false).


(** ** [handleNewScan] *)

Definition handleNewScan : Handler unit :=
  setState connect ;;
  setScanResult None ;;
  setTestResult None ;;
  setError None.

End App.

(* ===================================================================== *)
(** * Connection form ([ConnectionForm]) *)
(* ===================================================================== *)

Module ConnectionForm.
Import Js.

Definition DEFAULT_PARAMS : ConnectionParams.t :=
  {| ConnectionParams.db_type := "postgresql";
     ConnectionParams.host := "localhost";
     ConnectionParams.port := 5432;
     ConnectionParams.database := "postgres";
     ConnectionParams.schema_name := "redacted_db";
     ConnectionParams.user := "";
     ConnectionParams.password := "" |}.

Record Defaults : Type := { port : Z; database : string }.

Definition DB_DEFAULTS : Obj Defaults :=
  [ ("postgresql", {| port := 5432; database := "postgres" |});
    ("mysql", {| port := 3306; database := "testdb" |});
    ("snowflake", {| port := 443; database := "" |});
    ("mongodb", {| port := 27017; database := "test" |}) ].

(** The values of the select's options, the only arguments
    [handleDbTypeChange] is called with. *)
Definition dbTypeOptions : list string :=
  [ "postgresql"; "mysql"; "snowflake"; "mongodb" ].

(** [DB_DEFAULTS[dbType] || DB_DEFAULTS.postgresql].  The argument is always
    one of [dbTypeOptions], each an own key; the fallback is what a string
    that names no property at all gets. *)
Definition defaultsFor (dbType : string) : Defaults :=
  match getOwn DB_DEFAULTS dbType with
  | Some d => d
  | None => {| port := 5432; database := "postgres" |}
  end.

(** [DB_DEFAULTS[p.db_type]?.database] *)
Definition currentDefaultDatabase (p : ConnectionParams.t) : option string :=
  match getOwn DB_DEFAULTS (ConnectionParams.db_type p) with
  | Some d => Some (database d)
  | None => None
  end.

(** [p.database === DB_DEFAULTS[p.db_type]?.database] *)
Definition databaseIsDefault (p : ConnectionParams.t) : bool :=
  match currentDefaultDatabase p with
  | Some d => (ConnectionParams.database p =? d)%string
  | None => false
  end.

(** The updater [handleDbTypeChange] passes to [setParams]. *)
Definition handleDbTypeChange (dbType : string) (p : ConnectionParams.t)
    : ConnectionParams.t :=
  let defaults := defaultsFor dbType in
  {| ConnectionParams.db_type := dbType;
     ConnectionParams.host := ConnectionParams.host p;
     ConnectionParams.port := port defaults;
     ConnectionParams.database :=
       if databaseIsDefault p then database defaults
       else ConnectionParams.database p;
     ConnectionParams.schema_name := ConnectionParams.schema_name p;
     ConnectionParams.user := ConnectionParams.user p;
     ConnectionParams.password := ConnectionParams.password p |}.

(** [params.host && params.database && params.user && params.password],
    as the [disabled] attribute reads it. *)
Definition canTest (p : ConnectionParams.t) : bool :=
  truthy (ConnectionParams.host p) && truthy (ConnectionParams.database p)
  && truthy (ConnectionParams.user p) && truthy (ConnectionParams.password p).

(** [testResult?.success === true] *)
Definition canScan (testResult : option App.TestResult) : bool :=
  match testResult with
  | Some r => App.success r
  | None => false
  end.

(** [disabled={!canTest || isTesting || isScanning}] *)
Definition testDisabled (p : ConnectionParams.t) (a : App.t) : bool :=
  negb (canTest p) || App.isTesting a || App.isScanning a.

(** [disabled={!canScan || isScanning}] *)
Definition scanDisabled (a : App.t) : bool :=
  negb (canScan (App.testResult a)) || App.isScanning a.

End ConnectionForm.

(* ===================================================================== *)
(** * The workflow as a transition system *)
(* ===================================================================== *)

Module Workflow.
Import Js.

(** What can happen to the page: a click on a rendered, enabled control, or
    the settling of the request in flight. *)
Inductive Event : Type :=
| ClickTest (p : ConnectionParams.t)
| TestSettled (settled : Settled AxiosError.t TestConnectionResponse.t)
| ClickScan (p : ConnectionParams.t)
| ScanSettled (settled : Settled AxiosError.t ScanResponse.t)
| ClickNewScan.

Definition isConnect (a : App.t) : bool :=
  match App.state a with App.connect => true | _ => false end.

Definition isResults (a : App.t) : bool :=
  match App.state a with App.results => true | _ => false end.

(** The form is rendered in [connect] only, the report (with its New Scan
    button) in [results] with a stored scan result; a request settles only
    while its flag is up. *)
Definition enabled (a : App.t) (e : Event) : bool :=
  match e with
  | ClickTest p => isConnect a && negb (ConnectionForm.testDisabled p a)
  | TestSettled _ => App.isTesting a
  | ClickScan _ => isConnect a && negb (ConnectionForm.scanDisabled a)
  | ScanSettled _ => App.isScanning a
  | ClickNewScan =>
      isResults a && match App.scanResult a with Some _ => true | None => false end
  end.

Definition handler (e : Event) : App.Handler unit :=
  match e with
  | ClickTest _ => App.handleTest_begin
  | TestSettled settled => App.handleTest_settle settled
  | ClickScan _ => App.handleScan_begin
  | ScanSettled settled => App.handleScan_settle settled
  | ClickNewScan => App.handleNewScan
  end.

Definition step (a : App.t) (e : Event) : option App.t :=
  if enabled a e then Some (fst (handler e a)) else None.

Fixpoint exec (a : App.t) (trace : list Event) : option App.t :=
  match trace with
  | [] => Some a
  | e :: trace' =>
      match step a e with
      | Some a' => exec a' trace'
      | None => None
      end
  end.

End Workflow.

(* ===================================================================== *)
(** * Report engine ([ComplianceReport]) *)
(* ===================================================================== *)

Module ComplianceReport.
Import Js.

Module SortField.
Inductive t : Type := table | column | pii_type | confidence | risk_level.
End SortField.

Module RiskFilter.
Inductive t : Type := all | critical | high.
End RiskFilter.

Module ViewMode.
Inductive t : Type := grouped | flat.
End ViewMode.

(** The component's view state. *)
Record View : Type := {
  sortField : SortField.t;
  sortAsc : bool;
  riskFilter : RiskFilter.t;
  viewMode : ViewMode.t;
  expandedTables : list string
}.

Definition initialView : View :=
  {| sortField := SortField.risk_level; sortAsc := true;
     riskFilter := RiskFilter.all; viewMode := ViewMode.grouped;
     expandedTables := [] |}.

Definition RISK_ORDER : Obj Z :=
  [ ("critical", 0); ("high", 1); ("medium", 2); ("low", 3) ].

(** [RISK_ORDER[r] ?? 4] as the subtraction reads it: the own number, 4 when
    the lookup is [undefined], and [NaN] for what a name inherited from
    [Object.prototype] yields (a function or an object, neither nullish). *)
Definition riskOrder (r : string) : number :=
  match get RISK_ORDER r with
  | Own n => Num (inject_Z n)
  | Inherited => NaN
  | Undefined => Num (inject_Z 4)
  end.

(** ** Heatmap pivot *)

Record Heatmap : Type := {
  tables : list string;
  piiTypes : list string;
  lookup : Obj HeatmapCell.t
}.

(** The template [`${table}|${pii_type}`] *)
Definition cellKey (tbl pt : string) : string := (tbl ++ "|" ++ pt)%string.

Definition heatmap (cells : list HeatmapCell.t) : Heatmap :=
  {| tables := newSet (map HeatmapCell.table cells);
     piiTypes := newSet (map HeatmapCell.pii_type cells);
     lookup := newMap (map (fun h => (cellKey (HeatmapCell.table h)
                                              (HeatmapCell.pii_type h), h)) cells) |}.

(** [heatmap.lookup.get(`${tbl}|${pt}`)] *)
Definition cellAt (hm : Heatmap) (tbl pt : string) : option HeatmapCell.t :=
  mapGet (lookup hm) (cellKey tbl pt).

(** [cell?.found] as the conditional reads it. *)
Definition cellFound (cell : option HeatmapCell.t) : bool :=
  match cell with
  | Some c => HeatmapCell.found c
  | None => false
  end.

(** The body rows of the rendered matrix: per table, per PII type, whether
    the cell is drawn as found. *)
Definition heatmapRows (hm : Heatmap) : list (string * list (string * bool)) :=
  map (fun tbl => (tbl, map (fun pt => (pt, cellFound (cellAt hm tbl pt)))
                            (piiTypes hm)))
      (tables hm).

(** ** Filter and sort *)

Definition applyFilter (riskFilter : RiskFilter.t) (items : list PIIFinding.t)
    : list PIIFinding.t :=
  match riskFilter with
  | RiskFilter.critical =>
      filter (fun f => (PIIFinding.risk_level f =? "critical")%string) items
  | RiskFilter.high =>
      filter (fun f => (PIIFinding.risk_level f =? "critical")%string
                       || (PIIFinding.risk_level f =? "high")%string) items
  | RiskFilter.all => items
  end.

(** [a[sortField]] for the string-valued sort fields. *)
Definition stringField (field : SortField.t) (f : PIIFinding.t) : string :=
  match field with
  | SortField.table => PIIFinding.table f
  | SortField.column => PIIFinding.column f
  | SortField.pii_type => PIIFinding.pii_type f
  | SortField.confidence => ""
  | SortField.risk_level => PIIFinding.risk_level f
  end.

Section Engine.

(** [String.prototype.localeCompare] depends on the host's collation; it is a
    parameter of the engine.  It returns a negative, zero or positive integer. *)
Variable localeCompare : string -> string -> Z.

(** The comparator passed to [items.sort]. *)
Definition compareFindings (sortField : SortField.t) (sortAsc : bool)
    (a b : PIIFinding.t) : number :=
  let cmp :=
    match sortField with
    | SortField.confidence =>
        sub (Num (PIIFinding.confidence a)) (Num (PIIFinding.confidence b))
    | SortField.risk_level =>
        sub (riskOrder (PIIFinding.risk_level a)) (riskOrder (PIIFinding.risk_level b))
    | _ =>
        Num (inject_Z (localeCompare (stringField sortField a)
                                     (stringField sortField b)))
    end in
  if sortAsc then cmp else neg cmp.

Definition applySort (sortField : SortField.t) (sortAsc : bool)
    (items : list PIIFinding.t) : list PIIFinding.t :=
  sort (compareFindings sortField sortAsc) items.

Definition sortedFindings (findings : list PIIFinding.t) (sortField : SortField.t)
    (sortAsc : bool) (riskFilter : RiskFilter.t) : list PIIFinding.t :=
  applySort sortField sortAsc (applyFilter riskFilter findings).

End Engine.

(** ** Grouping by table: the loop body and the loop.

    [if (!groups[f.table]) groups[f.table] = []; groups[f.table].push(f)].
    An array is truthy even when empty, and so is anything inherited from
    [Object.prototype]; what is inherited has no [push]. *)

Definition Groups : Type := Obj (list PIIFinding.t).

Definition groupStep (groups : Groups) (f : PIIFinding.t) : Completion Exn Groups :=
  let k := PIIFinding.table f in
  let groups1 :=
    match get groups k with
    | Undefined => set groups k []
    | _ => groups
    end in
  match get groups1 k with
  | Own arr => Normal (set groups1 k (arr ++ [f]))
  | Inherited => Throw (TypeError "groups[f.table].push is not a function")
  | Undefined => Throw (TypeError "Cannot read properties of undefined (reading 'push')")
  end.

Fixpoint groupLoop (fs : list PIIFinding.t) (groups : Groups)
    : Completion Exn Groups :=
  match fs with
  | [] => Normal groups
  | f :: fs' =>
      match groupStep groups f with
      | Normal groups' => groupLoop fs' groups'
      | Throw e => Throw e
      end
  end.

Definition groupedFindings (sorted : list PIIFinding.t) : Completion Exn Groups :=
  groupLoop sorted [].

(** ** Aggregate figures *)

(** [table_stats.reduce((sum, t) => sum + Math.max(0, t.row_count), 0)] *)
Definition dataVolume (stats : list TableStats.t) : Z :=
  fold_left (fun sum t => sum + Z.max 0 (TableStats.row_count t)) stats 0.

(** [table_stats.reduce((sum, t) => sum + t.row_count, 0)] *)
Definition totalRecords (stats : list TableStats.t) : Z :=
  fold_left (fun sum t => sum + TableStats.row_count t) stats 0.

(** ** The rendered report *)

Record Group : Type := {
  groupTable : string;
  groupFindings : list PIIFinding.t;
  groupHighRisk : nat;
  groupExpanded : bool
}.

Record Volume : Type := {
  estimatedSubjects : Z;
  totalRecordsFigure : Z;
  statRows : list TableStats.t
}.

Record Report : Type := {
  (* the Data Volume stat card; [None] is the dash *)
  dataVolumeCard : option Z;
  (* the PII heatmap: column headers and body rows *)
  heatmapSection : option (list string * list (string * list (string * bool)));
  (* "Detailed Findings (n of m)" *)
  findingsShown : nat;
  findingsOf : option nat;
  groupedView : option (list Group);
  flatView : option (list PIIFinding.t);
  consentSection : option (list ConsentMapping.t);
  volumeSection : option Volume
}.

Definition isHighRisk (f : PIIFinding.t) : bool :=
  (PIIFinding.risk_level f =? "critical")%string
  || (PIIFinding.risk_level f =? "high")%string.

Definition renderGroup (view : View) (entry : string * list PIIFinding.t) : Group :=
  {| groupTable := fst entry;
     groupFindings := snd entry;
     groupHighRisk := List.length (filter isHighRisk (snd entry));
     groupExpanded := existsb (String.eqb (fst entry)) (expandedTables view) |}.

Definition renderDataVolume (data : ScanResponse.t) : option Z :=
  match ScanResponse.table_stats data with
  | Some stats => Some (dataVolume stats)
  | None => None
  end.

Definition renderHeatmap (hm : Heatmap)
    : option (list string * list (string * list (string * bool))) :=
  match piiTypes hm with
  | [] => None
  | _ :: _ => Some (piiTypes hm, heatmapRows hm)
  end.

Definition renderConsent (data : ScanResponse.t) : option (list ConsentMapping.t) :=
  match ScanResponse.consent_mappings data with
  | [] => None
  | _ :: _ => Some (ScanResponse.consent_mappings data)
  end.

Definition renderVolume (data : ScanResponse.t) : option Volume :=
  match ScanResponse.table_stats data with
  | Some ((_ :: _) as stats) =>
      Some {| estimatedSubjects := ScanResponse.estimated_data_subjects data;
              totalRecordsFigure := totalRecords stats;
              statRows := stats |}
  | _ => None
  end.

Definition isAll (rf : RiskFilter.t) : bool :=
  match rf with RiskFilter.all => true | _ => false end.

Definition isGrouped (vm : ViewMode.t) : bool :=
  match vm with ViewMode.grouped => true | ViewMode.flat => false end.

Section Render.
Variable localeCompare : string -> string -> Z.

(** One render of the component: the memoised derivations run first (an
    exception in one of them aborts the render), then the sections are laid
    out under their guards. *)
Definition render (data : ScanResponse.t) (view : View) : Completion Exn Report :=
  let hm := heatmap (ScanResponse.heatmap data) in
  let sorted := sortedFindings localeCompare (ScanResponse.findings data)
                  (sortField view) (sortAsc view) (riskFilter view) in
  match groupedFindings sorted with
  | Throw e => Throw e
  | Normal groups =>
      Normal
        {| dataVolumeCard := renderDataVolume data;
           heatmapSection := renderHeatmap hm;
           findingsShown := List.length sorted;
           findingsOf := if isAll (riskFilter view) then None
                         else Some (List.length (ScanResponse.findings data));
           groupedView := if isGrouped (viewMode view) && isAll (riskFilter view)
                          then Some (map (renderGroup view) (entries groups))
                          else None;
           flatView := if negb (isGrouped (viewMode view))
                          || negb (isAll (riskFilter view))
                       then Some sorted else None;
           consentSection := renderConsent data;
           volumeSection := renderVolume data |}
  end.

End Render.

End ComplianceReport.

(* ===================================================================== *)
(** * API client: download URLs ([services/api.ts]) *)
(* ===================================================================== *)

Module Api.
Import Js.

Section Base.

(** [import.meta.env.VITE_API_URL]: unset, or a string. *)
Variable VITE_API_URL : option string.

(** [import.meta.env.VITE_API_URL || '/api/v1'] *)
Definition API_BASE : string := or_else VITE_API_URL "/api/v1".

(** [`${API_BASE}/scan/${scanId}/report`] *)
Definition getReportUrl (scanId : string) : string :=
  (API_BASE ++ "/scan/" ++ scanId ++ "/report")%string.

(** [`${API_BASE}/scan/${scanId}/script`] *)
Definition getScriptUrl (scanId : string) : string :=
  (API_BASE ++ "/scan/" ++ scanId ++ "/script")%string.

End Base.

End Api.

(* ===================================================================== *)
(** * What [App] puts on the page *)
(* ===================================================================== *)

Module Page.
Import Js.

Inductive t : Type :=
| Form                               (* the login card with [ConnectionForm] *)
| Progress (message : string)        (* [ScanProgress] *)
| Report (data : ScanResponse.t)     (* [ComplianceReport] *)
| Nothing.                           (* none of the three guards holds *)

(** The three guarded blocks between header and footer:
    [state === 'connect' && ...], [state === 'scanning' && ...],
    [state === 'results' && scanResult && ...]. *)
Definition body (a : App.t) : t :=
  match App.state a with
  | App.connect => Form
  | App.scanning => Progress (App.progressMsg a)
  | App.results =>
      match App.scanResult a with
      | Some data => Report data
      | None => Nothing
      end
  end.

(** [{error && <div ...>{error}</div>}]: the banner, when there is one. *)
Definition errorBanner (a : App.t) : option string :=
  match App.error a with
  | Some msg => if truthy msg then Some msg else None
  | None => None
  end.

(** The header's sub-title. *)
Definition headerSub (a : App.t) : string :=
  match App.state a with
  | App.results => "DPDP Compliance Report"
  | _ => "Scan your database for DPDP compliance gaps"
  end.

End Page.

(* ===================================================================== *)
(** * The connection form's edits *)
(* ===================================================================== *)

Module FormEdit.
Import Js.

(** A call [set(field, value)] as the inputs make it: the field with the
    value of its type. *)
Inductive FieldValue : Type :=
| host (v : string)
| port (v : Z)
| database (v : string)
| schema_name (v : string)
| user (v : string)
| password (v : string).

(** [set = (field, value) => setParams((p) => ({ ...p, [field]: value }))] *)
Definition set (fv : FieldValue) (p : ConnectionParams.t) : ConnectionParams.t :=
  {| ConnectionParams.db_type := ConnectionParams.db_type p;
     ConnectionParams.host :=
       match fv with host v => v | _ => ConnectionParams.host p end;
     ConnectionParams.port :=
       match fv with port v => v | _ => ConnectionParams.port p end;
     ConnectionParams.database :=
       match fv with database v => v | _ => ConnectionParams.database p end;
     ConnectionParams.schema_name :=
       match fv with schema_name v => v | _ => ConnectionParams.schema_name p end;
     ConnectionParams.user :=
       match fv with user v => v | _ => ConnectionParams.user p end;
     ConnectionParams.password :=
       match fv with password v => v | _ => ConnectionParams.password p end |}.

(** [parseInt(e.target.value) || 5432], given what [parseInt] made of the
    text: an integer, or [NaN] ([None]).  Zero and [NaN] are falsy. *)
Definition portOrDefault (parsed : option Z) : Z :=
  match parsed with
  | Some n => if n =? 0 then 5432 else n
  | None => 5432
  end.

(** The values of the select's options that are not [disabled]. *)
Definition selectableDbTypes : list string := [ "postgresql"; "mysql" ].

(** The [onChange] handlers of the form's controls. *)
Inductive Edit : Type :=
| ChangeDbType (dbType : string)
| ChangeHost (text : string)
| ChangePort (parsed : option Z)
| ChangeDatabase (text : string)
| ChangeSchema (text : string)
| ChangeUser (text : string)
| ChangePassword (text : string).

(** The select only yields an option that is not disabled. *)
Definition possible (e : Edit) : bool :=
  match e with
  | ChangeDbType dbType => existsb (String.eqb dbType) selectableDbTypes
  | _ => true
  end.

Definition apply (e : Edit) (p : ConnectionParams.t) : ConnectionParams.t :=
  match e with
  | ChangeDbType dbType => ConnectionForm.handleDbTypeChange dbType p
  | ChangeHost text => set (host text) p
  | ChangePort parsed => set (port (portOrDefault parsed)) p
  | ChangeDatabase text => set (database text) p
  | ChangeSchema text => set (schema_name text) p
  | ChangeUser text => set (user text) p
  | ChangePassword text => set (password text) p
  end.

(** The form after a sequence of edits, from the state it is mounted with. *)
Fixpoint run (p : ConnectionParams.t) (edits : list Edit) : option ConnectionParams.t :=
  match edits with
  | [] => Some p
  | e :: edits' => if possible e then run (apply e p) edits' else None
  end.

End FormEdit.

(* ===================================================================== *)
(** * The page and its form together *)
(* ===================================================================== *)

Module Session.
Import Js.

(** [App]'s cells and, while [ConnectionForm] is mounted, its [params] cell.
    The form is a child of the block guarded by [state === 'connect']: it is
    unmounted when the state leaves [connect], and mounted afresh, with
    [useState(DEFAULT_PARAMS)], when the state comes back. *)
Record t : Type := {
  app : App.t;
  form : option ConnectionParams.t
}.

Definition initial : t :=
  {| app := App.initial; form := Some ConnectionForm.DEFAULT_PARAMS |}.

(** The calls of [services/api.ts] the page makes. *)
Inductive Request : Type :=
| testConnection (params : ConnectionParams.t)
| runScan (params : ConnectionParams.t).

Inductive Event : Type :=
| EditForm (e : FormEdit.Edit)
| ClickTest          (* [onClick={() => onTestConnection(params)}] *)
| ClickScan          (* [onClick={() => onScan(params)}] *)
| TestSettled (settled : Settled AxiosError.t TestConnectionResponse.t)
| ScanSettled (settled : Settled AxiosError.t ScanResponse.t)
| ClickNewScan.

(** The form's cell once the page is in state [a']. *)
Definition remount (before : option ConnectionParams.t) (a' : App.t)
    : option ConnectionParams.t :=
  match App.state a' with
  | App.connect =>
      match before with
      | Some p => Some p
      | None => Some ConnectionForm.DEFAULT_PARAMS
      end
  | _ => None
  end.

(** The page's event for an event of the session: the buttons pass the
    form's current parameters. *)
Definition workflowEvent (s : t) (e : Event) : option Workflow.Event :=
  match e with
  | EditForm _ => None
  | ClickTest =>
      match form s with Some p => Some (Workflow.ClickTest p) | None => None end
  | ClickScan =>
      match form s with Some p => Some (Workflow.ClickScan p) | None => None end
  | TestSettled settled => Some (Workflow.TestSettled settled)
  | ScanSettled settled => Some (Workflow.ScanSettled settled)
  | ClickNewScan => Some Workflow.ClickNewScan
  end.

(** The call a handler makes: [testConnection(params)], [runScan(params)]. *)
Definition request (e : Workflow.Event) : option Request :=
  match e with
  | Workflow.ClickTest p => Some (testConnection p)
  | Workflow.ClickScan p => Some (runScan p)
  | _ => None
  end.

Definition step (s : t) (e : Event) : option (t * option Request) :=
  match e with
  | EditForm ed =>
      match form s with
      | Some p =>
          if FormEdit.possible ed
          then Some ({| app := app s; form := Some (FormEdit.apply ed p) |}, None)
          else None
      | None => None
      end
  | _ =>
      match workflowEvent s e with
      | Some we =>
          match Workflow.step (app s) we with
          | Some a' =>
              Some ({| app := a'; form := remount (form s) a' |}, request we)
          | None => None
          end
      | None => None
      end
  end.

(** A run: the session reached and the calls made, in order. *)
Fixpoint exec (s : t) (trace : list Event) : option (t * list Request) :=
  match trace with
  | [] => Some (s, [])
  | e :: trace' =>
      match step s e with
      | Some (s', r) =>
          match exec s' trace' with
          | Some (s'', rs) =>
              Some (s'', match r with Some q => q :: rs | None => rs end)
          | None => None
          end
      | None => None
      end
  end.

End Session.

(* ===================================================================== *)
(** * The report's view state and its controls *)
(* ===================================================================== *)

Module ReportView.
Import Js ComplianceReport.

Definition sameField (f1 f2 : SortField.t) : bool :=
  match f1, f2 with
  | SortField.table, SortField.table => true
  | SortField.column, SortField.column => true
  | SortField.pii_type, SortField.pii_type => true
  | SortField.confidence, SortField.confidence => true
  | SortField.risk_level, SortField.risk_level => true
  | _, _ => false
  end.

(** [handleSort]: the active column flips its direction, another column
    becomes active, ascending. *)
Definition handleSort (field : SortField.t) (v : View) : View :=
  if sameField (sortField v) field then
    {| sortField := sortField v; sortAsc := negb (sortAsc v);
       riskFilter := riskFilter v; viewMode := viewMode v;
       expandedTables := expandedTables v |}
  else
    {| sortField := field; sortAsc := true;
       riskFilter := riskFilter v; viewMode := viewMode v;
       expandedTables := expandedTables v |}.

(** [sortArrow] *)
Definition sortArrow (field : SortField.t) (v : View) : string :=
  if sameField (sortField v) field then
    if sortAsc v then " ▲" else " ▼"
  else "".

Definition setExpanded (tables : list string) (v : View) : View :=
  {| sortField := sortField v; sortAsc := sortAsc v;
     riskFilter := riskFilter v; viewMode := viewMode v;
     expandedTables := tables |}.

Definition setFilterAndMode (rf : RiskFilter.t) (vm : ViewMode.t) (v : View) : View :=
  {| sortField := sortField v; sortAsc := sortAsc v;
     riskFilter := rf; viewMode := vm;
     expandedTables := expandedTables v |}.

(** [toggleTable]: a copy of the set, with the table removed if it was a
    member and added otherwise. *)
Definition toggleTable (table : string) (v : View) : View :=
  let next := newSet (expandedTables v) in
  setExpanded (if setHas next table then setDelete next table
               else setAdd next table) v.

(** [expandAll]: [new Set(Object.keys(groupedFindings))] *)
Definition expandAll (groups : Groups) (v : View) : View :=
  setExpanded (newSet (map fst (entries groups))) v.

(** [collapseAll]: [new Set()] *)
Definition collapseAll (v : View) : View := setExpanded [] v.

(** [scrollToFindings] and the filter badge's [onClick]: both set the filter
    to [all] and the view mode to [grouped]. *)
Definition scrollToFindings (v : View) : View :=
  setFilterAndMode RiskFilter.all ViewMode.grouped v.

(** [scrollToHighRisk] *)
Definition scrollToHighRisk (v : View) : View :=
  setFilterAndMode RiskFilter.high ViewMode.flat v.

(** The Grouped / Flat buttons: [setViewMode]. *)
Definition setViewMode (vm : ViewMode.t) (v : View) : View :=
  setFilterAndMode (riskFilter v) vm v.

(** Which of the two findings views is laid out. *)
Definition groupedShown (v : View) : bool :=
  isGrouped (viewMode v) && isAll (riskFilter v).

Definition flatShown (v : View) : bool :=
  negb (isGrouped (viewMode v)) || negb (isAll (riskFilter v)).

(** What the user can click, each control where the component lays it out.
    (The Consent Fields and Data Volume cards only scroll the page; they
    change no state.) *)
Inductive Event : Type :=
| ClickPiiColumnsCard                 (* stat card: [scrollToFindings] *)
| ClickHighRiskCard                   (* stat card: [scrollToHighRisk] *)
| ClickFilterBadge                    (* shown while a risk filter is on *)
| ClickViewToggle (vm : ViewMode.t)   (* shown while no risk filter is on *)
| ClickHeader (field : SortField.t)   (* column header of the flat table *)
| ClickGroupHeader (table : string)   (* header of a group *)
| ClickExpandAll                      (* grouped view *)
| ClickCollapseAll.                   (* grouped view *)

Section Machine.
Variable localeCompare : string -> string -> Z.
Variable data : ScanResponse.t.

(** The groups of the current render, when the render does not throw. *)
Definition groupsOf (v : View) : option Groups :=
  match groupedFindings (sortedFindings localeCompare (ScanResponse.findings data)
                           (sortField v) (sortAsc v) (riskFilter v)) with
  | Normal groups => Some groups
  | Throw _ => None
  end.

(** One click: nothing can be clicked when the render threw; otherwise the
    control must be laid out. *)
Definition step (v : View) (e : Event) : option View :=
  match groupsOf v with
  | None => None
  | Some groups =>
      match e with
      | ClickPiiColumnsCard => Some (scrollToFindings v)
      | ClickHighRiskCard => Some (scrollToHighRisk v)
      | ClickFilterBadge =>
          if negb (isAll (riskFilter v)) then Some (scrollToFindings v) else None
      | ClickViewToggle vm =>
          if isAll (riskFilter v) then Some (setViewMode vm v) else None
      | ClickHeader field =>
          if flatShown v then Some (handleSort field v) else None
      | ClickGroupHeader table =>
          if groupedShown v && setHas (map fst (entries groups)) table
          then Some (toggleTable table v) else None
      | ClickExpandAll =>
          if groupedShown v then Some (expandAll groups v) else None
      | ClickCollapseAll =>
          if groupedShown v then Some (collapseAll v) else None
      end
  end.

Fixpoint exec (v : View) (clicks : list Event) : option View :=
  match clicks with
  | [] => Some v
  | e :: clicks' =>
      match step v e with
      | Some v' => exec v' clicks'
      | None => None
      end
  end.

End Machine.

End ReportView.

(* ===================================================================== *)
(** * Display helpers of the report *)
(* ===================================================================== *)

Module Display.
Import Js.

(** [\w] without flags: an ASCII letter, digit or underscore. *)
Definition isWordChar (c : ascii) : bool :=
  let n := N_of_ascii c in
  ((48 <=? n) && (n <=? 57) || (65 <=? n) && (n <=? 90)
   || (97 <=? n) && (n <=? 122) || (n =? 95))%N.

(** [c.toUpperCase()] for a character that [\w] matched. *)
Definition toUpperCase (c : ascii) : ascii :=
  let n := N_of_ascii c in
  if ((97 <=? n) && (n <=? 122))%N then ascii_of_N (n - 32) else c.

(** [t.replace(/_/g, ' ')] *)
Fixpoint replaceUnderscores (t : string) : string :=
  match t with
  | EmptyString => EmptyString
  | String c t' =>
      String (if (c =? "_")%char then " "%char else c) (replaceUnderscores t')
  end.

(** [t.replace(/\b\w/g, (c) => c.toUpperCase())]: a word character is matched
    where the character before it, if any, is not one. *)
Fixpoint upperWordStarts (afterWordChar : bool) (t : string) : string :=
  match t with
  | EmptyString => EmptyString
  | String c t' =>
      String (if isWordChar c && negb afterWordChar then toUpperCase c else c)
             (upperWordStarts (isWordChar c) t')
  end.

(** [formatPII] *)
Definition formatPII (t : string) : string :=
  upperWordStarts false (replaceUnderscores t).

End Display.

(* ===================================================================== *)
(** * Vocabulary of the properties *)
(* ===================================================================== *)

Module Spec.
Import Js ComplianceReport.


(** While a scan is in flight the page shows the progress view. *)
Definition scanningShowsProgress (a : App.t) : Prop :=
  App.isScanning a = true -> App.state a = App.scanning.

(** Read off the trace alone: whether the most recent test result is a
    success.  A click on Test starts a new attempt, which has no result while
    in flight; a rejected test is a failed one; New Scan discards the result;
    scanning does not test. *)
Fixpoint lastTestSucceeded (before : bool) (trace : list Workflow.Event) : bool :=
  match trace with
  | [] => before
  | Workflow.ClickTest _ :: trace' => lastTestSucceeded false trace'
  | Workflow.TestSettled (Fulfilled res) :: trace' =>
      lastTestSucceeded (TestConnectionResponse.success res) trace'
  | Workflow.TestSettled (Rejected _) :: trace' => lastTestSucceeded false trace'
  | Workflow.ClickNewScan :: trace' => lastTestSucceeded false trace'
  | Workflow.ClickScan _ :: trace' => lastTestSucceeded before trace'
  | Workflow.ScanSettled _ :: trace' => lastTestSucceeded before trace'
  end.


(** The fixed order of risk levels: critical, high, medium, low, and any
    other value after all four. *)
Definition riskRank (r : string) : Z :=
  if (r =? "critical")%string then 0
  else if (r =? "high")%string then 1
  else if (r =? "medium")%string then 2
  else if (r =? "low")%string then 3
  else 4.

Definition riskAscending (a b : PIIFinding.t) : Prop :=
  riskRank (PIIFinding.risk_level a) <= riskRank (PIIFinding.risk_level b).


(** A comparison of strings that orders them: every string ties with itself,
    swapping the arguments swaps the sign, and "not after" is transitive. *)
Definition consistentCompare (localeCompare : string -> string -> Z) : Prop :=
  (forall s, localeCompare s s = 0)
  /\ (forall s1 s2, Z.sgn (localeCompare s2 s1) = - Z.sgn (localeCompare s1 s2))
  /\ (forall s1 s2 s3, localeCompare s1 s2 <= 0 -> localeCompare s2 s3 <= 0 ->
        localeCompare s1 s3 <= 0).

(** The distinct members of a list in order of first appearance. *)
Fixpoint firstSeen (xs : list string) : list string :=
  match xs with
  | [] => []
  | x :: xs' => x :: filter (fun y => negb (y =? x)%string) (firstSeen xs')
  end.

(** [y] is not a member of [s]. *)
Definition notIn (s : list string) (y : string) : bool :=
  negb (existsb (String.eqb y) s).

(** The findings stored under a key, none when the key is absent. *)
Definition valueOf (g : Groups) (k : string) : list PIIFinding.t :=
  match getOwn g k with
  | Some v => v
  | None => []
  end.

(** The findings of one table, in the order of the list. *)
Definition ofTable (k : string) (l : list PIIFinding.t) : list PIIFinding.t :=
  filter (fun f => (PIIFinding.table f =? k)%string) l.



(** The cell of a heatmap collection for exactly the pair [(tbl, pt)]: the
    last one, a later cell for the same pair replacing an earlier one. *)
Definition cellOfPair (cells : list HeatmapCell.t) (tbl pt : string)
    : option HeatmapCell.t :=
  fold_left (fun acc h =>
               if (HeatmapCell.table h =? tbl)%string
                  && (HeatmapCell.pii_type h =? pt)%string
               then Some h else acc) cells None.

(** The string holds no vertical bar, the separator of the joined key. *)
Fixpoint noBar (s : string) : bool :=
  match s with
  | EmptyString => true
  | String c s' => negb (c =? "|")%char && noBar s'
  end.

(** The number of cells of a rendered matrix. *)
Definition cellCount (rows : list (string * list (string * bool))) : nat :=
  List.length (List.concat (map snd rows)).

(** What holds of the page's state at every moment: the scanning flag is up
    exactly in [scanning]; a scan result is stored exactly in [results];
    while a test is in flight the form is shown and no test result is stored;
    a scan runs only after a successful test, with no test in flight; a
    stored error is a non-empty message, shown on the form beside the
    successful test result. *)
Definition workflowInvariant (a : App.t) : Prop :=
  (App.isScanning a = true <-> App.state a = App.scanning)
  /\ (App.state a = App.results <-> App.scanResult a <> None)
  /\ (App.isTesting a = true ->
      App.state a = App.connect /\ App.testResult a = None)
  /\ (App.state a = App.scanning ->
      ConnectionForm.canScan (App.testResult a) = true /\ App.isTesting a = false)
  /\ (forall msg, App.error a = Some msg ->
      msg <> "" /\ App.state a = App.connect
      /\ ConnectionForm.canScan (App.testResult a) = true
      /\ App.isTesting a = false).

(** What holds of the form at every moment: the type is one the select
    offers enabled, and the port is not zero. *)
Definition formInvariant (p : ConnectionParams.t) : Prop :=
  In (ConnectionParams.db_type p) FormEdit.selectableDbTypes
  /\ ConnectionParams.port p <> 0.

(** What holds of a session at every moment: the page's invariant, the form
    mounted exactly in [connect], and the form's invariant. *)
Definition sessionInvariant (s : Session.t) : Prop :=
  workflowInvariant (Session.app s)
  /\ (Session.form s = None <-> App.state (Session.app s) <> App.connect)
  /\ (forall p, Session.form s = Some p -> formInvariant p).

(** A call the form's controls allow: the type is one the select offers
    enabled and the port is not zero; a connection test moreover has host,
    database, user and password filled in. *)
Definition wellFormed (r : Session.Request) : Prop :=
  match r with
  | Session.testConnection p =>
      formInvariant p /\ ConnectionForm.canTest p = true
  | Session.runScan p => formInvariant p
  end.

(** The findings in order under a sort field: confidence by value, risk level
    by rank, the string fields by the collation. *)
Definition keyLe (localeCompare : string -> string -> Z) (field : SortField.t)
    (a b : PIIFinding.t) : Prop :=
  match field with
  | SortField.confidence =>
      (PIIFinding.confidence a <= PIIFinding.confidence b)%Q
  | SortField.risk_level =>
      riskRank (PIIFinding.risk_level a) <= riskRank (PIIFinding.risk_level b)
  | _ => localeCompare (stringField field a) (stringField field b) <= 0
  end.

Definition inOrder (localeCompare : string -> string -> Z) (field : SortField.t)
    (asc : bool) (a b : PIIFinding.t) : Prop :=
  if asc then keyLe localeCompare field a b else keyLe localeCompare field b a.

(** The string holds no underscore. *)
Fixpoint noUnderscore (s : string) : bool :=
  match s with
  | EmptyString => true
  | String c s' => negb (c =? "_")%char && noUnderscore s'
  end.

(** What holds of the report's view state at every moment. *)
Definition viewInvariant (data : ScanResponse.t) (v : View) : Prop :=
  riskFilter v <> RiskFilter.critical
  /\ (riskFilter v = RiskFilter.high -> viewMode v = ViewMode.flat)
  /\ NoDup (expandedTables v)
  /\ (forall t, In t (expandedTables v) ->
      In t (map PIIFinding.table (ScanResponse.findings data))).

End Spec.

(* ===================================================================== *)
(** * Sample inputs *)
(* ===================================================================== *)

Module Samples.
Import Js.

Definition params : ConnectionParams.t :=
  {| ConnectionParams.db_type := "postgresql";
     ConnectionParams.host := "localhost";
     ConnectionParams.port := 5432;
     ConnectionParams.database := "postgres";
     ConnectionParams.schema_name := "public";
     ConnectionParams.user := "a";
     ConnectionParams.password := "b" |}.

Definition testOk : TestConnectionResponse.t :=
  {| TestConnectionResponse.success := true;
     TestConnectionResponse.message := "Connection successful";
     TestConnectionResponse.tables_found := 3 |}.

(** A rejection whose response carries the backend detail. *)
Definition timeoutError : AxiosError.t :=
  {| AxiosError.response :=
       Some {| AxiosError.data :=
                 Some {| AxiosError.detail := Some "connection timeout" |} |};
     AxiosError.message := Some "Request failed with status code 500" |}.


(** Test succeeds, scan is started, the scan call is rejected. *)
Definition failedScanTrace : list Workflow.Event :=
  [ Workflow.ClickTest params;
    Workflow.TestSettled (Fulfilled testOk);
    Workflow.ClickScan params;
    Workflow.ScanSettled (Rejected timeoutError) ].

Definition afterFailedScan : App.t :=
  {| App.state := App.connect;
     App.scanResult := None;
     App.testResult := Some (App.ofResponse testOk);
     App.isTesting := false;
     App.isScanning := false;
     App.progressMsg := "Running PII classifiers across all tables...";
     App.error := Some "connection timeout" |}.

(** A comparison by code units, standing for the host's collation. *)
Definition codeUnitCompare (s1 s2 : string) : Z :=
  match String.compare s1 s2 with
  | Lt => -1
  | Eq => 0
  | Gt => 1
  end.

Definition finding (tbl col pii risk : string) (conf : Q) : PIIFinding.t :=
  {| PIIFinding.table := tbl; PIIFinding.column := col;
     PIIFinding.pii_type := pii; PIIFinding.confidence := conf;
     PIIFinding.classifier := "regex"; PIIFinding.risk_level := risk;
     PIIFinding.encryption_status := "plaintext"; PIIFinding.purpose := "" |}.

(** The finding of the happy-path scenario. *)
Definition usersEmail : PIIFinding.t :=
  finding "users" "email" "email_address" "high" (95 # 100).

(** Findings of two tables, interleaved. *)
Definition mixedTables : list PIIFinding.t :=
  [ usersEmail;
    finding "orders" "card" "credit_card" "critical" (99 # 100);
    finding "users" "phone" "phone_number" "medium" (80 # 100) ].

(** A risk value that is none of the four and names a property every object
    inherits, ahead of a critical finding. *)
Definition oddRiskFirst : list PIIFinding.t :=
  [ finding "users" "email" "email_address" "constructor" (95 # 100);
    finding "users" "phone" "phone_number" "critical" (90 # 100) ].


Definition cell (tbl pii : string) (found : bool) : HeatmapCell.t :=
  {| HeatmapCell.table := tbl; HeatmapCell.pii_type := pii;
     HeatmapCell.found := found; HeatmapCell.confidence := 1 |}.

(** Two cells whose table and PII type differ and whose joined keys agree. *)
Definition barCells : list HeatmapCell.t :=
  [ cell "a|b" "c" true; cell "a" "b|c" false ].

Definition noSummary : ScanSummary.t :=
  {| ScanSummary.tables_scanned := 0; ScanSummary.tables_with_pii := 0;
     ScanSummary.total_pii_columns := 0; ScanSummary.consent_fields := 0;
     ScanSummary.high_risk_fields := 0; ScanSummary.pii_types_found := [] |}.

Definition scanOf (findings : list PIIFinding.t) : ScanResponse.t :=
  {| ScanResponse.scan_id := "scan-1"; ScanResponse.score := 82;
     ScanResponse.summary := noSummary;
     ScanResponse.findings := findings;
     ScanResponse.consent_mappings := [];
     ScanResponse.heatmap := [];
     ScanResponse.table_stats := Some [];
     ScanResponse.estimated_data_subjects := 0;
     ScanResponse.scanned_at := "2026-01-01T00:00:00Z" |}.

(** A scan result with empty collections throughout. *)
Definition emptyScan : ScanResponse.t := scanOf [].

(** A scan of a database that has a table named [constructor]. *)
Definition constructorTableScan : ScanResponse.t :=
  scanOf [ finding "constructor" "email" "email_address" "high" (95 # 100) ].

(** Test succeeds, scan succeeds with the empty result, New Scan. *)
Definition fullCycleTrace : list Workflow.Event :=
  [ Workflow.ClickTest params;
    Workflow.TestSettled (Fulfilled testOk);
    Workflow.ClickScan params;
    Workflow.ScanSettled (Fulfilled emptyScan);
    Workflow.ClickNewScan ].

(** The happy-path scan with findings of two tables. *)
Definition mixedScan : ScanResponse.t := scanOf mixedTables.

(** Clicks on the report of [mixedScan]: Expand All, the header of the group
    "users", the High Risk card, the Confidence column header, the filter
    badge. *)
Definition reportClicks : list ReportView.Event :=
  [ ReportView.ClickExpandAll;
    ReportView.ClickGroupHeader "users";
    ReportView.ClickHighRiskCard;
    ReportView.ClickHeader ComplianceReport.SortField.confidence;
    ReportView.ClickFilterBadge ].

(** Credentials typed in, test, scan; the scan call is rejected. *)
Definition failedScanSession : list Session.Event :=
  [ Session.EditForm (FormEdit.ChangeUser "a");
    Session.EditForm (FormEdit.ChangePassword "b");
    Session.ClickTest;
    Session.TestSettled (Fulfilled Samples.testOk);
    Session.ClickScan;
    Session.ScanSettled (Rejected Samples.timeoutError) ].

End Samples.

(* ===================================================================== *)
(** * Properties of the workflow controller *)
(* ===================================================================== *)

Section WorkflowFacts.
Import Js Spec.

(** The three-way precedence of the displayed message. *)
Lemma displayMessage_detail (err : AxiosError.t) (fallback d : string) :
  AxiosError.detailOf err = Some d -> d <> "" ->
  AxiosError.displayMessage err fallback = d.
Proof.
  intros Hd Hne. unfold AxiosError.displayMessage, or_else, orValue, truthy.
  apply String.eqb_neq in Hne.
  rewrite Hd. cbn. rewrite Hne. cbn. rewrite ?Hne. reflexivity.
Qed.

Lemma displayMessage_message (err : AxiosError.t) (fallback m : string) :
  AxiosError.detailOf err = None \/ AxiosError.detailOf err = Some "" ->
  AxiosError.message err = Some m -> m <> "" ->
  AxiosError.displayMessage err fallback = m.
Proof.
  intros Hd Hm Hne. unfold AxiosError.displayMessage, or_else, orValue, truthy.
  apply String.eqb_neq in Hne.
  destruct Hd as [Hd | Hd]; rewrite Hd, Hm; cbn; rewrite Hne; cbn;
    rewrite ?Hne; reflexivity.
Qed.

Lemma displayMessage_fallback (err : AxiosError.t) (fallback : string) :
  AxiosError.detailOf err = None \/ AxiosError.detailOf err = Some "" ->
  AxiosError.message err = None \/ AxiosError.message err = Some "" ->
  AxiosError.displayMessage err fallback = fallback.
Proof.
  intros Hd Hm. unfold AxiosError.displayMessage, or_else, orValue, truthy.
  destruct Hd as [Hd | Hd], Hm as [Hm | Hm]; rewrite Hd, Hm; reflexivity.
Qed.








End WorkflowFacts.

Section ScanEligibility.
Import Js Spec.

(** Case analysis on an event and on what a request settled to. *)
Ltac event_cases e :=
  destruct e as [? | [? | ?] | ? | [? | ?] | ].

Lemma step_testResult (a a' : App.t) (e : Workflow.Event) :
  Workflow.step a e = Some a' ->
  ConnectionForm.canScan (App.testResult a') =
  lastTestSucceeded (ConnectionForm.canScan (App.testResult a)) [e].
Proof.
  unfold Workflow.step. destruct (Workflow.enabled a e); [| discriminate].
  intros H. injection H as <-.
  event_cases e; reflexivity.
Qed.

Lemma step_scanningShowsProgress (a a' : App.t) (e : Workflow.Event) :
  Workflow.step a e = Some a' ->
  scanningShowsProgress a -> scanningShowsProgress a'.
Proof.
  unfold Workflow.step, scanningShowsProgress.
  destruct (Workflow.enabled a e) eqn:En; [| discriminate].
  intros H Inv. injection H as <-.
  event_cases e; simpl in *;
    try assumption; try discriminate; try reflexivity.
  (* New Scan is only offered in [results], where no scan is in flight. *)
  intros Hs. specialize (Inv Hs). unfold Workflow.isResults in En.
  rewrite Inv in En. discriminate.
Qed.

Lemma lastTestSucceeded_app (b : bool) (t1 t2 : list Workflow.Event) :
  lastTestSucceeded b (t1 ++ t2) =
  lastTestSucceeded (lastTestSucceeded b t1) t2.
Proof.
  revert b. induction t1 as [| e t1 IH]; intros b; [reflexivity |].
  event_cases e; simpl; apply IH.
Qed.

Lemma exec_testResult (trace : list Workflow.Event) :
  forall a0 a, Workflow.exec a0 trace = Some a ->
  ConnectionForm.canScan (App.testResult a) =
  lastTestSucceeded (ConnectionForm.canScan (App.testResult a0)) trace.
Proof.
  induction trace as [| e trace IH]; intros a0 a H; simpl in H.
  - injection H as <-. reflexivity.
  - destruct (Workflow.step a0 e) as [a1 |] eqn:St; [| discriminate].
    rewrite (IH _ _ H), (step_testResult _ _ _ St).
    change (e :: trace) with ([e] ++ trace).
    now rewrite lastTestSucceeded_app.
Qed.

Lemma exec_scanningShowsProgress (trace : list Workflow.Event) :
  forall a0 a, Workflow.exec a0 trace = Some a ->
  scanningShowsProgress a0 -> scanningShowsProgress a.
Proof.
  induction trace as [| e trace IH]; intros a0 a H Inv; simpl in H.
  - now injection H as <-.
  - destruct (Workflow.step a0 e) as [a1 |] eqn:St; [| discriminate].
    eapply IH; [exact H |]. eapply step_scanningShowsProgress; eassumption.
Qed.

(** C2.  In every state the workflow can reach, [canScan] holds exactly when
    the most recent test result is a success; on the form (state [connect])
    the Scan button is enabled exactly when [canScan] holds.  A click on Test
    disables scanning while the attempt is in flight, a settled test leaves
    scanning enabled only if it resolved with [success = true], and once
    disabled scanning is enabled again by nothing but a test that resolves
    successfully. *)
Theorem canScan_is_last_test_success :
  forall (trace : list Workflow.Event) (a : App.t),
  Workflow.exec App.initial trace = Some a ->
  (ConnectionForm.canScan (App.testResult a) = true
     <-> lastTestSucceeded false trace = true)
  /\ (App.state a = App.connect ->
      negb (ConnectionForm.scanDisabled a) = ConnectionForm.canScan (App.testResult a))
  /\ (forall p a', Workflow.step a (Workflow.ClickTest p) = Some a' ->
      ConnectionForm.canScan (App.testResult a') = false)
  /\ (forall settled a', Workflow.step a (Workflow.TestSettled settled) = Some a' ->
      ConnectionForm.canScan (App.testResult a') =
        match settled with
        | Fulfilled res => TestConnectionResponse.success res
        | Rejected _ => false
        end)
  /\ (forall e a', ConnectionForm.canScan (App.testResult a) = false ->
      Workflow.step a e = Some a' ->
      ConnectionForm.canScan (App.testResult a') = true ->
      exists res, e = Workflow.TestSettled (Fulfilled res)
                  /\ TestConnectionResponse.success res = true).
Proof.
  intros trace a Hexec.
  split; [| split; [| split; [| split]]].
  - rewrite (exec_testResult _ _ _ Hexec). reflexivity.
  - intros Hc. unfold ConnectionForm.scanDisabled.
    assert (Inv : scanningShowsProgress a).
    { eapply exec_scanningShowsProgress; [exact Hexec |]. discriminate. }
    destruct (App.isScanning a) eqn:Hs.
    + specialize (Inv Hs). congruence.
    + rewrite orb_false_r. apply negb_involutive.
  - intros p a' St. now rewrite (step_testResult _ _ _ St).
  - intros settled a' St. rewrite (step_testResult _ _ _ St).
    destruct settled; reflexivity.
  - intros e a' Hoff St Hon. rewrite (step_testResult _ _ _ St), Hoff in Hon.
    destruct e as [p | [res | err] | p | [res | err] | ]; simpl in Hon;
      try discriminate.
    exists res. split; [reflexivity | exact Hon].
Qed.

(** An instance of C2: after the failed scan of [Samples.failedScanTrace]
    scanning is still enabled, the last test having succeeded. *)
Lemma canScan_after_failed_scan :
  ConnectionForm.canScan (App.testResult Samples.afterFailedScan) = true
  <-> lastTestSucceeded false Samples.failedScanTrace = true.
Proof.
  exact (proj1 (canScan_is_last_test_success
                  Samples.failedScanTrace Samples.afterFailedScan eq_refl)).
Defined.

End ScanEligibility.

(* ===================================================================== *)
(** * Properties of the connection form *)
(* ===================================================================== *)

Section FormFacts.
Import Js.

(** The default database name registered for a type that is one of the
    select's options. *)
Lemma dbTypeOptions_own (dbType : string) :
  In dbType ConnectionForm.dbTypeOptions ->
  exists d, getOwn ConnectionForm.DB_DEFAULTS dbType = Some d.
Proof.
  simpl. intros [<- | [<- | [<- | [<- | []]]]]; eexists; reflexivity.
Qed.

(** C10.  Changing the database type to one of the offered types sets the
    type, always sets the port to that type's default port, sets the database
    name to that type's default exactly when the current name is the default
    of the type selected before (any other name is kept), and leaves host,
    schema, user and password as they were. *)
Theorem handleDbTypeChange_frame :
  forall (dbType : string) (p : ConnectionParams.t),
  In dbType ConnectionForm.dbTypeOptions ->
  exists d : ConnectionForm.Defaults,
    getOwn ConnectionForm.DB_DEFAULTS dbType = Some d
    /\ let p' := ConnectionForm.handleDbTypeChange dbType p in
       ConnectionParams.db_type p' = dbType
       /\ ConnectionParams.port p' = ConnectionForm.port d
       /\ (forall d0, getOwn ConnectionForm.DB_DEFAULTS (ConnectionParams.db_type p) = Some d0 ->
           ConnectionParams.database p = ConnectionForm.database d0 ->
           ConnectionParams.database p' = ConnectionForm.database d)
       /\ (forall d0, getOwn ConnectionForm.DB_DEFAULTS (ConnectionParams.db_type p) = Some d0 ->
           ConnectionParams.database p <> ConnectionForm.database d0 ->
           ConnectionParams.database p' = ConnectionParams.database p)
       /\ (getOwn ConnectionForm.DB_DEFAULTS (ConnectionParams.db_type p) = None ->
           ConnectionParams.database p' = ConnectionParams.database p)
       /\ ConnectionParams.host p' = ConnectionParams.host p
       /\ ConnectionParams.schema_name p' = ConnectionParams.schema_name p
       /\ ConnectionParams.user p' = ConnectionParams.user p
       /\ ConnectionParams.password p' = ConnectionParams.password p.
Proof.
  intros dbType p Hin.
  destruct (dbTypeOptions_own dbType Hin) as [d Hd].
  exists d. split; [exact Hd |].
  cbv zeta. unfold ConnectionForm.handleDbTypeChange, ConnectionForm.defaultsFor,
    ConnectionForm.databaseIsDefault, ConnectionForm.currentDefaultDatabase.
  rewrite Hd. cbn [ConnectionParams.db_type ConnectionParams.port
    ConnectionParams.database ConnectionParams.host ConnectionParams.schema_name
    ConnectionParams.user ConnectionParams.password].
  repeat split.
  - intros d0 H0 Heq. rewrite H0. apply String.eqb_eq in Heq. now rewrite Heq.
  - intros d0 H0 Hne. rewrite H0. apply String.eqb_neq in Hne. now rewrite Hne.
  - intros H0. now rewrite H0.
Qed.

(** An instance of C10: from the initial form, choosing MySQL. *)
Lemma handleDbTypeChange_mysql :
  exists d : ConnectionForm.Defaults,
    getOwn ConnectionForm.DB_DEFAULTS "mysql" = Some d
    /\ let p' := ConnectionForm.handleDbTypeChange "mysql" ConnectionForm.DEFAULT_PARAMS in
       ConnectionParams.db_type p' = "mysql"
       /\ ConnectionParams.port p' = ConnectionForm.port d
       /\ (forall d0, getOwn ConnectionForm.DB_DEFAULTS
                        (ConnectionParams.db_type ConnectionForm.DEFAULT_PARAMS) = Some d0 ->
           ConnectionParams.database ConnectionForm.DEFAULT_PARAMS = ConnectionForm.database d0 ->
           ConnectionParams.database p' = ConnectionForm.database d)
       /\ (forall d0, getOwn ConnectionForm.DB_DEFAULTS
                        (ConnectionParams.db_type ConnectionForm.DEFAULT_PARAMS) = Some d0 ->
           ConnectionParams.database ConnectionForm.DEFAULT_PARAMS <> ConnectionForm.database d0 ->
           ConnectionParams.database p' = ConnectionParams.database ConnectionForm.DEFAULT_PARAMS)
       /\ (getOwn ConnectionForm.DB_DEFAULTS
             (ConnectionParams.db_type ConnectionForm.DEFAULT_PARAMS) = None ->
           ConnectionParams.database p' = ConnectionParams.database ConnectionForm.DEFAULT_PARAMS)
       /\ ConnectionParams.host p' = ConnectionParams.host ConnectionForm.DEFAULT_PARAMS
       /\ ConnectionParams.schema_name p' = ConnectionParams.schema_name ConnectionForm.DEFAULT_PARAMS
       /\ ConnectionParams.user p' = ConnectionParams.user ConnectionForm.DEFAULT_PARAMS
       /\ ConnectionParams.password p' = ConnectionParams.password ConnectionForm.DEFAULT_PARAMS.
Proof.
  apply (handleDbTypeChange_frame "mysql" ConnectionForm.DEFAULT_PARAMS).
  simpl. right. left. reflexivity.
Defined.

End FormFacts.

(* ===================================================================== *)
(** * Properties of [Array.prototype.sort] as modelled *)
(* ===================================================================== *)

Section SortFacts.
Import Js.
Context {A : Type}.
Variable comparefn : A -> A -> number.

Lemma insert_perm (x : A) (l : list A) :
  Permutation (insert comparefn x l) (x :: l).
Proof.
  induction l as [| y t IH]; simpl; [reflexivity |].
  destruct (sortCompare (comparefn x y)); try reflexivity.
  rewrite IH. apply perm_swap.
Qed.

Lemma sort_perm (l : list A) : Permutation (sort comparefn l) l.
Proof.
  induction l as [| x t IH]; simpl; [reflexivity |].
  rewrite insert_perm. now constructor.
Qed.

Lemma sort_In (l : list A) (x : A) : In x (sort comparefn l) <-> In x l.
Proof.
  split; apply Permutation_in; [| symmetry]; apply sort_perm.
Qed.

(** [x] does not come after [y] in the comparator's order. *)
Definition notAfter (x y : A) : Prop := sortCompare (comparefn x y) <> Gt.

(** Sortedness needs that the comparator orders the elements at hand. *)
Lemma insert_sorted (x : A) (l : list A) :
  (forall y, In y l -> sortCompare (comparefn x y) = Gt -> notAfter y x) ->
  (forall y z, In y l -> In z l -> notAfter x y -> notAfter y z -> notAfter x z) ->
  StronglySorted notAfter l ->
  StronglySorted notAfter (insert comparefn x l).
Proof.
  intros Htot Htrans Hs. induction Hs as [| y t Hst IH Hall]; simpl.
  - repeat constructor.
  - destruct (sortCompare (comparefn x y)) eqn:E.
    + constructor; [now constructor |]. constructor.
      * unfold notAfter. now rewrite E.
      * rewrite Forall_forall in *. intros z Hz.
        apply (Htrans y z); simpl; auto.
        unfold notAfter. now rewrite E.
    + constructor; [now constructor |]. constructor.
      * unfold notAfter. now rewrite E.
      * rewrite Forall_forall in *. intros z Hz.
        apply (Htrans y z); simpl; auto.
        unfold notAfter. now rewrite E.
    + constructor.
      * apply IH.
        -- intros z Hz. apply Htot. now right.
        -- intros u v Hu Hv. apply Htrans; now right.
      * rewrite Forall_forall in *. intros z Hz.
        apply (Permutation_in _ (insert_perm x t)) in Hz.
        destruct Hz as [<- | Hz]; [| now apply Hall].
        apply Htot; [now left | exact E].
Qed.

Lemma sort_sorted (l : list A) :
  (forall x y, In x l -> In y l ->
     sortCompare (comparefn x y) = Gt -> notAfter y x) ->
  (forall x y z, In x l -> In y l -> In z l ->
     notAfter x y -> notAfter y z -> notAfter x z) ->
  StronglySorted notAfter (sort comparefn l).
Proof.
  induction l as [| x t IH]; intros Htot Htrans; simpl; [constructor |].
  apply insert_sorted.
  - intros y Hy. apply Htot; [now left | right; now apply sort_In].
  - intros y z Hy Hz. apply Htrans; [now left | right; now apply sort_In
                                     | right; now apply sort_In].
  - apply IH.
    + intros u v Hu Hv. apply Htot; now right.
    + intros u v w Hu Hv Hw. apply Htrans; now right.
Qed.



(** The sort only reads the comparator on the elements it is given. *)
Lemma insert_ext (c' : A -> A -> number) (x : A) (l : list A) :
  (forall y, In y l -> sortCompare (comparefn x y) = sortCompare (c' x y)) ->
  insert comparefn x l = insert c' x l.
Proof.
  induction l as [| y t IH]; intros H; [reflexivity |].
  simpl. rewrite <- (H y) by now left.
  destruct (sortCompare (comparefn x y)); try reflexivity.
  f_equal. apply IH. intros z Hz. apply H. now right.
Qed.

End SortFacts.

Lemma filter_perm {A : Type} (p : A -> bool) (l l' : list A) :
  Permutation l l' -> Permutation (filter p l) (filter p l').
Proof.
  induction 1 as [| x l l' _ IH | x y l | l l' l'' _ IH1 _ IH2]; simpl.
  - constructor.
  - destruct (p x); [now constructor | exact IH].
  - destruct (p x), (p y); try reflexivity. apply perm_swap.
  - now transitivity (filter p l').
Qed.

(* ===================================================================== *)
(** * Properties of the report engine: filter, sort and the aggregates *)
(* ===================================================================== *)

Section FilterSortFacts.
Import Js ComplianceReport Spec.
Variable localeCompare : string -> string -> Z.

Lemma applyFilter_perm (rf : RiskFilter.t) (l l' : list PIIFinding.t) :
  Permutation l l' -> Permutation (applyFilter rf l) (applyFilter rf l').
Proof.
  destruct rf; simpl; auto using filter_perm.
Qed.

Lemma applyFilter_critical_In (findings : list PIIFinding.t) (f : PIIFinding.t) :
  In f (applyFilter RiskFilter.critical findings)
  <-> In f findings /\ PIIFinding.risk_level f = "critical".
Proof.
  simpl. rewrite filter_In, String.eqb_eq. reflexivity.
Qed.

Lemma applyFilter_high_In (findings : list PIIFinding.t) (f : PIIFinding.t) :
  In f (applyFilter RiskFilter.high findings)
  <-> In f findings /\ (PIIFinding.risk_level f = "critical"
                        \/ PIIFinding.risk_level f = "high").
Proof.
  simpl. rewrite filter_In, orb_true_iff, !String.eqb_eq. reflexivity.
Qed.

(** C6.  For every finding list, risk filter, sort field and direction,
    filtering and then sorting (what [sortedFindings] does) yields the same
    rows, each as many times, as sorting the full list and then filtering;
    the rows kept by [critical] are exactly those with risk level
    "critical", those kept by [high] exactly those with risk level "critical"
    or "high", and [all] keeps every row. *)
Theorem filter_then_sort_same_rows :
  forall (findings : list PIIFinding.t) (field : SortField.t) (asc : bool)
         (rf : RiskFilter.t),
  Permutation (sortedFindings localeCompare findings field asc rf)
              (applyFilter rf (applySort localeCompare field asc findings))
  /\ (forall f, In f (sortedFindings localeCompare findings field asc rf)
                <-> In f (applyFilter rf (applySort localeCompare field asc findings)))
  /\ (forall f, In f (sortedFindings localeCompare findings field asc RiskFilter.critical)
                <-> In f findings /\ PIIFinding.risk_level f = "critical")
  /\ (forall f, In f (sortedFindings localeCompare findings field asc RiskFilter.high)
                <-> In f findings /\ (PIIFinding.risk_level f = "critical"
                                      \/ PIIFinding.risk_level f = "high"))
  /\ (forall f, In f (sortedFindings localeCompare findings field asc RiskFilter.all)
                <-> In f findings).
Proof.
  intros findings field asc rf.
  assert (P : Permutation (sortedFindings localeCompare findings field asc rf)
                (applyFilter rf (applySort localeCompare field asc findings))).
  { unfold sortedFindings, applySort. rewrite sort_perm.
    apply applyFilter_perm. symmetry. apply sort_perm. }
  split; [exact P |]. split; [| split; [| split]].
  - intros f. split; apply Permutation_in; [| symmetry]; exact P.
  - intros f. unfold sortedFindings, applySort.
    rewrite sort_In. apply applyFilter_critical_In.
  - intros f. unfold sortedFindings, applySort.
    rewrite sort_In. apply applyFilter_high_In.
  - intros f. unfold sortedFindings, applySort. rewrite sort_In. reflexivity.
Qed.

End FilterSortFacts.

Section AggregateFacts.
Import Js ComplianceReport Spec.






End AggregateFacts.

(* ===================================================================== *)
(** * Properties of the report engine: sorting *)
(* ===================================================================== *)

Section RiskSortFacts.
Import Js ComplianceReport Spec.
Variable localeCompare : string -> string -> Z.

Lemma StronglySorted_impl_In {A : Type} (R R' : A -> A -> Prop) (l : list A) :
  (forall x y, In x l -> In y l -> R x y -> R' x y) ->
  StronglySorted R l -> StronglySorted R' l.
Proof.
  intros Himp Hs. induction Hs as [| x l Hs IH Hall]; constructor.
  - apply IH. intros u v Hu Hv. apply Himp; now right.
  - rewrite Forall_forall in *. intros y Hy.
    apply Himp; [now left | now right | now apply Hall].
Qed.

Lemma applyFilter_In (rf : RiskFilter.t) (l : list PIIFinding.t) (f : PIIFinding.t) :
  In f (applyFilter rf l) -> In f l.
Proof.
  destruct rf; simpl; [tauto | |]; rewrite filter_In; tauto.
Qed.

(** Outside the names every object inherits, [RISK_ORDER[r] ?? 4] is the
    rank of [r] in the fixed order. *)
Lemma riskOrder_rank (r : string) :
  inherited r = false -> riskOrder r = Num (inject_Z (riskRank r)).
Proof.
  intros H. cbv [riskOrder get RISK_ORDER getOwn riskRank].
  rewrite (String.eqb_sym "critical" r), (String.eqb_sym "high" r),
    (String.eqb_sym "medium" r), (String.eqb_sym "low" r).
  destruct (r =? "critical")%string; [reflexivity |].
  destruct (r =? "high")%string; [reflexivity |].
  destruct (r =? "medium")%string; [reflexivity |].
  destruct (r =? "low")%string; [reflexivity |].
  now rewrite H.
Qed.

Lemma sortCompare_sub_Z (x y : Z) :
  sortCompare (sub (Num (inject_Z x)) (Num (inject_Z y))) = (x ?= y).
Proof.
  simpl. unfold Qcompare, Qminus, Qplus, Qopp, inject_Z. simpl.
  rewrite !Z.mul_1_r, Z.add_opp_r. symmetry. apply Z.compare_sub.
Qed.

Lemma sortCompare_neg (v : number) :
  sortCompare (neg v) = CompOpp (sortCompare v).
Proof.
  destruct v as [[n d] |]; [| reflexivity].
  simpl. unfold Qcompare. simpl. rewrite !Z.mul_1_r.
  destruct n; reflexivity.
Qed.



Lemma compare_risk_ascending (a b : PIIFinding.t) :
  inherited (PIIFinding.risk_level a) = false ->
  inherited (PIIFinding.risk_level b) = false ->
  sortCompare (compareFindings localeCompare SortField.risk_level true a b)
  = (riskRank (PIIFinding.risk_level a) ?= riskRank (PIIFinding.risk_level b)).
Proof.
  intros Ha Hb. unfold compareFindings.
  rewrite (riskOrder_rank _ Ha), (riskOrder_rank _ Hb).
  apply sortCompare_sub_Z.
Qed.

(** Sorting by risk level, ascending, puts critical before high before
    medium before low before every other value, provided no risk value is a
    name that objects inherit from [Object.prototype]. *)
Theorem risk_sort_is_ascending :
  forall (findings : list PIIFinding.t) (rf : RiskFilter.t),
  (forall f, In f findings -> inherited (PIIFinding.risk_level f) = false) ->
  StronglySorted riskAscending
    (sortedFindings localeCompare findings SortField.risk_level true rf).
Proof.
  intros findings rf Hown. unfold sortedFindings, applySort.
  set (l := applyFilter rf findings).
  assert (Hl : forall f, In f l -> inherited (PIIFinding.risk_level f) = false).
  { intros f Hf. apply Hown. now apply applyFilter_In in Hf. }
  set (c := compareFindings localeCompare SortField.risk_level true).
  assert (Hle : forall a b, In a l -> In b l ->
            (notAfter c a b <-> riskAscending a b)).
  { intros a b Ha Hb. unfold notAfter, c, riskAscending.
    rewrite compare_risk_ascending by auto. symmetry. apply Z.compare_le_iff. }
  apply (StronglySorted_impl_In (notAfter c)).
  - intros a b Ha Hb. apply sort_In in Ha. apply sort_In in Hb. now apply Hle.
  - apply sort_sorted.
    + intros a b Ha Hb Hgt. apply Hle; auto. unfold c in Hgt.
      rewrite compare_risk_ascending in Hgt by auto.
      apply Z.compare_gt_iff in Hgt. unfold riskAscending. lia.
    + intros x y z Hx Hy Hz Hxy Hyz.
      apply Hle in Hxy; auto. apply Hle in Hyz; auto. apply Hle; auto.
      unfold riskAscending in *. lia.
Qed.



End RiskSortFacts.

Section RiskSortSlip.
Import Js ComplianceReport Spec.

(** An instance: findings of three risk levels, sorted by risk. *)
Lemma risk_sort_mixed_tables :
  StronglySorted riskAscending
    (sortedFindings Samples.codeUnitCompare Samples.mixedTables
       SortField.risk_level true RiskFilter.all).
Proof.
  apply (risk_sort_is_ascending Samples.codeUnitCompare Samples.mixedTables
           RiskFilter.all).
  intros f [<- | [<- | [<- | []]]]; reflexivity.
Defined.

Lemma string_compare_refl (s : string) : String.compare s s = Eq.
Proof.
  induction s as [| c s IH]; simpl; [reflexivity |].
  unfold Ascii.compare. now rewrite N.compare_refl.
Qed.

Lemma string_compare_le_trans (s1 s2 s3 : string) :
  String.compare s1 s2 <> Gt -> String.compare s2 s3 <> Gt ->
  String.compare s1 s3 <> Gt.
Proof.
  revert s2 s3. induction s1 as [| c1 s1 IH]; intros [| c2 s2] [| c3 s3]; simpl;
    try congruence.
  unfold Ascii.compare.
  destruct (N.compare_spec (N_of_ascii c1) (N_of_ascii c2)) as [E12 | L12 | G12];
    destruct (N.compare_spec (N_of_ascii c2) (N_of_ascii c3)) as [E23 | L23 | G23];
    try congruence; intros H12 H23.
  - rewrite E12, E23, N.compare_refl. now apply (IH s2).
  - rewrite E12. apply N.compare_lt_iff in L23. now rewrite L23.
  - rewrite <- E23. apply N.compare_lt_iff in L12. now rewrite L12.
  - assert (L : (N_of_ascii c1 < N_of_ascii c3)%N) by lia.
    apply N.compare_lt_iff in L. now rewrite L.
Qed.

(** The comparison by code units is a consistent one. *)
Lemma codeUnitCompare_consistent : consistentCompare Samples.codeUnitCompare.
Proof.
  unfold consistentCompare, Samples.codeUnitCompare. split; [| split].
  - intros s. now rewrite string_compare_refl.
  - intros s1 s2. rewrite (String.compare_antisym s2 s1).
    destruct (String.compare s1 s2); reflexivity.
  - intros s1 s2 s3 H12 H23.
    assert (H : String.compare s1 s3 <> Gt).
    { apply (string_compare_le_trans s1 s2 s3).
      - destruct (String.compare s1 s2); [discriminate | discriminate | lia].
      - destruct (String.compare s2 s3); [discriminate | discriminate | lia]. }
    destruct (String.compare s1 s3); [lia | lia | congruence].
Qed.


(** C3, at the failing input.  A finding whose risk value is "constructor"
    (none of the four levels) and a critical finding after it, sorted by
    risk level ascending.  There is one pair to compare; the comparator
    yields [NaN] on it, which the sort reads as a tie, and a tie is left in
    place: the list is returned as it was, the unrecognised value ahead of
    the critical one. *)
Theorem risk_sort_inherited_name_stays_first :
  sortedFindings Samples.codeUnitCompare Samples.oddRiskFirst
    SortField.risk_level true RiskFilter.all = Samples.oddRiskFirst
  /\ compareFindings Samples.codeUnitCompare SortField.risk_level true
       (nth 0 Samples.oddRiskFirst Samples.usersEmail)
       (nth 1 Samples.oddRiskFirst Samples.usersEmail) = NaN
  /\ ~ StronglySorted riskAscending
         (sortedFindings Samples.codeUnitCompare Samples.oddRiskFirst
            SortField.risk_level true RiskFilter.all).
Proof.
  split; [reflexivity |]. split; [reflexivity |].
  change (sortedFindings Samples.codeUnitCompare Samples.oddRiskFirst
            SortField.risk_level true RiskFilter.all)
    with Samples.oddRiskFirst.
  intros H. inversion H as [| ? ? _ Hall]; subst.
  inversion Hall as [| ? ? Hle _]; subst.
  unfold riskAscending in Hle. vm_compute in Hle. now apply Hle.
Qed.

End RiskSortSlip.

(* ===================================================================== *)
(** * Properties of objects, sets and maps as modelled *)
(* ===================================================================== *)

Section ContainerFacts.
Import Js.
Context {V : Type}.

Lemma getOwn_set (o : Obj V) (k : string) (v : V) (k' : string) :
  getOwn (set o k v) k' = if (k =? k')%string then Some v else getOwn o k'.
Proof.
  induction o as [| [k0 v0] o IH]; simpl; [reflexivity |].
  destruct (k0 =? k)%string eqn:E; simpl.
  - apply String.eqb_eq in E. subst k0. now destruct (k =? k')%string.
  - rewrite IH. destruct (k0 =? k')%string eqn:E0; [| reflexivity].
    destruct (k =? k')%string eqn:E1; [| reflexivity].
    apply String.eqb_eq in E0, E1. subst. now rewrite String.eqb_refl in E.
Qed.

Lemma map_fst_set (o : Obj V) (k : string) (v : V) :
  map fst (set o k v) = setAdd (map fst o) k.
Proof.
  unfold setAdd. induction o as [| [k0 v0] o IH]; simpl; [reflexivity |].
  rewrite (String.eqb_sym k k0).
  destruct (k0 =? k)%string; simpl; [reflexivity |].
  rewrite IH. now destruct (existsb (String.eqb k) (map fst o)).
Qed.

Lemma getOwn_None (o : Obj V) (k : string) :
  getOwn o k = None <-> ~ In k (map fst o).
Proof.
  induction o as [| [k0 v0] o IH]; simpl; [tauto |].
  destruct (k0 =? k)%string eqn:E.
  - apply String.eqb_eq in E. split; [discriminate | tauto].
  - apply String.eqb_neq in E. rewrite IH. tauto.
Qed.

Lemma getOwn_In (o : Obj V) (k : string) (v : V) :
  NoDup (map fst o) -> In (k, v) o -> getOwn o k = Some v.
Proof.
  induction o as [| [k0 v0] o IH]; simpl; [tauto |].
  intros Hnd [Heq | Hin].
  - injection Heq as -> ->. now rewrite String.eqb_refl.
  - inversion Hnd as [| ? ? Hnotin Hnd']; subst.
    destruct (k0 =? k)%string eqn:E; [| now apply IH].
    apply String.eqb_eq in E. subst k0. exfalso. apply Hnotin.
    change k with (fst (k, v)). now apply in_map.
Qed.

Lemma filter_partition_perm {T : Type} (p : T -> bool) (l : list T) :
  Permutation (filter p l ++ filter (fun x => negb (p x)) l) l.
Proof.
  induction l as [| x l IH]; simpl; [constructor |].
  destruct (p x); simpl.
  - now constructor.
  - symmetry. apply Permutation_cons_app. now symmetry.
Qed.

Lemma entries_perm (o : Obj V) : Permutation (entries o) o.
Proof.
  unfold entries. rewrite sort_perm. apply filter_partition_perm.
Qed.

Lemma entries_In (o : Obj V) (kv : string * V) : In kv (entries o) <-> In kv o.
Proof.
  split; apply Permutation_in; [| symmetry]; apply entries_perm.
Qed.

(** What [map.get] finds in [new Map(pairs)]: the value of the last pair
    with that key. *)
Lemma getOwn_fold_set (pairs : list (string * V)) (m : Obj V) (k : string) :
  getOwn (fold_left (fun m kv => set m (fst kv) (snd kv)) pairs m) k
  = fold_left (fun acc kv => if (fst kv =? k)%string then Some (snd kv) else acc)
      pairs (getOwn m k).
Proof.
  revert m. induction pairs as [| [k0 v0] pairs IH]; intros m; simpl;
    [reflexivity |].
  rewrite IH, getOwn_set. reflexivity.
Qed.

End ContainerFacts.

Section SetFacts.
Import Js Spec.

Lemma setAdd_In (s : list string) (x y : string) :
  In y (setAdd s x) <-> In y s \/ y = x.
Proof.
  unfold setAdd. destruct (existsb (String.eqb x) s) eqn:E.
  - split; [tauto |]. intros [H | ->]; [exact H |].
    apply existsb_exists in E. destruct E as (z & Hz & Hxz).
    apply String.eqb_eq in Hxz. now subst.
  - rewrite in_app_iff. simpl. intuition congruence.
Qed.

Lemma setAdd_NoDup (s : list string) (x : string) :
  NoDup s -> NoDup (setAdd s x).
Proof.
  intros Hnd. unfold setAdd. destruct (existsb (String.eqb x) s) eqn:E;
    [exact Hnd |].
  apply NoDup_app; [exact Hnd | repeat constructor; simpl; tauto |].
  intros a Ha [Hax | []]. subst a.
  assert (existsb (String.eqb x) s = true); [| congruence].
  apply existsb_exists. exists x. split; [exact Ha | apply String.eqb_refl].
Qed.

Lemma fold_setAdd_In (xs s : list string) (y : string) :
  In y (fold_left setAdd xs s) <-> In y s \/ In y xs.
Proof.
  revert s. induction xs as [| x xs IH]; intros s; simpl; [tauto |].
  rewrite IH, setAdd_In. intuition congruence.
Qed.

Lemma fold_setAdd_NoDup (xs s : list string) :
  NoDup s -> NoDup (fold_left setAdd xs s).
Proof.
  revert s. induction xs as [| x xs IH]; intros s Hnd; simpl; [exact Hnd |].
  apply IH. now apply setAdd_NoDup.
Qed.

Lemma newSet_In (xs : list string) (y : string) : In y (newSet xs) <-> In y xs.
Proof. unfold newSet. rewrite fold_setAdd_In. simpl. tauto. Qed.

Lemma newSet_NoDup (xs : list string) : NoDup (newSet xs).
Proof. apply fold_setAdd_NoDup. constructor. Qed.

Lemma newSet_nil (xs : list string) : newSet xs = [] <-> xs = [].
Proof.
  split; [| now intros ->].
  destruct xs as [| x xs]; [reflexivity |]. intros H.
  assert (Hin : In x (newSet (x :: xs))) by (apply newSet_In; now left).
  rewrite H in Hin. destruct Hin.
Qed.

Lemma filter_twice {T : Type} (p q : T -> bool) (l : list T) :
  filter p (filter q l) = filter (fun x => q x && p x) l.
Proof.
  induction l as [| a l IH]; simpl; [reflexivity |].
  destruct (q a); simpl; [destruct (p a); simpl; now rewrite IH | exact IH].
Qed.

Lemma notIn_snoc (x : string) (s : list string) (y : string) :
  notIn (s ++ [x]) y = notIn s y && negb (y =? x)%string.
Proof.
  unfold notIn. rewrite existsb_app. simpl. rewrite orb_false_r. apply negb_orb.
Qed.

Lemma notIn_single (x y : string) : notIn [x] y = negb (y =? x)%string.
Proof. unfold notIn. simpl. now rewrite orb_false_r. Qed.

(** Adding to a set that already has members: they stay in front, and what
    follows is what the additions alone would give, less those members. *)
Lemma fold_setAdd_split (xs s : list string) :
  fold_left setAdd xs s = s ++ filter (notIn s) (fold_left setAdd xs []).
Proof.
  revert s. induction xs as [| x xs IH]; intros s; simpl.
  - now rewrite app_nil_r.
  - change (setAdd [] x) with [x].
    rewrite (IH [x]), (IH (setAdd s x)). unfold setAdd.
    destruct (existsb (String.eqb x) s) eqn:E.
    + simpl. assert (Hx : notIn s x = false) by (unfold notIn; now rewrite E).
      rewrite Hx. f_equal. rewrite filter_twice. apply filter_ext. intros y.
      rewrite notIn_single. destruct (y =? x)%string eqn:Ey; simpl; auto.
      apply String.eqb_eq in Ey. now subst.
    + simpl. assert (Hx : notIn s x = true) by (unfold notIn; now rewrite E).
      rewrite Hx. rewrite <- app_assoc. simpl. f_equal. f_equal.
      rewrite filter_twice. apply filter_ext. intros y.
      rewrite notIn_snoc, notIn_single. apply andb_comm.
Qed.

(** [[...new Set(xs)]] lists the distinct members of [xs] in order of first
    appearance. *)
Lemma newSet_firstSeen (xs : list string) : newSet xs = firstSeen xs.
Proof.
  induction xs as [| x xs IH]; [reflexivity |].
  unfold newSet in *. simpl. change (setAdd [] x) with [x].
  rewrite fold_setAdd_split. simpl. f_equal.
  rewrite IH. apply filter_ext. intros y. apply notIn_single.
Qed.

End SetFacts.

(* ===================================================================== *)
(** * Properties of the report engine: the heatmap pivot *)
(* ===================================================================== *)

Section HeatmapFacts.
Import Js ComplianceReport Spec.

Lemma cellCount_rows (hm : Heatmap) :
  cellCount (heatmapRows hm)
  = (List.length (tables hm) * List.length (piiTypes hm))%nat.
Proof.
  unfold cellCount, heatmapRows.
  induction (tables hm) as [| tbl tbls IH]; simpl; [reflexivity |].
  rewrite length_app, length_map, IH. reflexivity.
Qed.

Lemma cellKey_inj (t1 p1 t2 p2 : string) :
  noBar t1 = true -> noBar t2 = true ->
  cellKey t1 p1 = cellKey t2 p2 -> t1 = t2 /\ p1 = p2.
Proof.
  unfold cellKey. revert t2.
  induction t1 as [| a t1 IH]; intros [| c t2]; simpl; intros H1 H2 Heq.
  - injection Heq as ->. split; reflexivity.
  - injection Heq as <- _. discriminate H2.
  - injection Heq as -> _. discriminate H1.
  - injection Heq as -> Heq.
    apply andb_true_iff in H1, H2.
    destruct (IH t2 (proj2 H1) (proj2 H2) Heq) as [-> ->]. split; reflexivity.
Qed.

Lemma cellKey_eqb (t1 p1 t2 p2 : string) :
  noBar t1 = true -> noBar t2 = true ->
  (cellKey t1 p1 =? cellKey t2 p2)%string
  = ((t1 =? t2)%string && (p1 =? p2)%string).
Proof.
  intros H1 H2.
  destruct (cellKey t1 p1 =? cellKey t2 p2)%string eqn:E.
  - apply String.eqb_eq in E. destruct (cellKey_inj _ _ _ _ H1 H2 E) as [-> ->].
    now rewrite !String.eqb_refl.
  - symmetry. apply andb_false_iff.
    destruct (t1 =? t2)%string eqn:Et; [| now left].
    destruct (p1 =? p2)%string eqn:Ep; [| now right].
    apply String.eqb_eq in Et, Ep. subst.
    now rewrite String.eqb_refl in E.
Qed.

(** The heatmap section is left out exactly for the empty collection. *)
Lemma renderHeatmap_None (cells : list HeatmapCell.t) :
  renderHeatmap (heatmap cells) = None <-> cells = [].
Proof.
  unfold renderHeatmap. simpl piiTypes.
  destruct (newSet (map HeatmapCell.pii_type cells)) eqn:E.
  - apply (proj1 (newSet_nil _)) in E. destruct cells; [tauto | discriminate E].
  - split; [discriminate |]. intros ->. discriminate E.
Qed.

(** The pivot is total over the cross product: the matrix has one row per
    distinct table and, in each row, one cell per distinct PII type, so
    |tables| x |pii_types| cells in all; each cell is drawn from the lookup
    under the joined key of its position and drawn as not found when the
    lookup has nothing; tables and types are the distinct names of the
    collection; the section is left out exactly for the empty collection. *)
Theorem heatmap_matrix_is_cross_product :
  forall (cells : list HeatmapCell.t),
  cellCount (heatmapRows (heatmap cells))
    = (List.length (tables (heatmap cells))
       * List.length (piiTypes (heatmap cells)))%nat
  /\ map fst (heatmapRows (heatmap cells)) = tables (heatmap cells)
  /\ (forall row, In row (heatmapRows (heatmap cells)) ->
      snd row = map (fun pt => (pt, cellFound (cellAt (heatmap cells) (fst row) pt)))
                    (piiTypes (heatmap cells)))
  /\ (forall tbl pt, cellAt (heatmap cells) tbl pt = None ->
      cellFound (cellAt (heatmap cells) tbl pt) = false)
  /\ tables (heatmap cells) = firstSeen (map HeatmapCell.table cells)
  /\ piiTypes (heatmap cells) = firstSeen (map HeatmapCell.pii_type cells)
  /\ NoDup (tables (heatmap cells))
  /\ NoDup (piiTypes (heatmap cells))
  /\ (forall tbl, In tbl (tables (heatmap cells))
                  <-> In tbl (map HeatmapCell.table cells))
  /\ (forall pt, In pt (piiTypes (heatmap cells))
                 <-> In pt (map HeatmapCell.pii_type cells))
  /\ (renderHeatmap (heatmap cells) = None <-> cells = []).
Proof.
  intros cells. split; [apply cellCount_rows |].
  split; [unfold heatmapRows; rewrite map_map; simpl; apply map_id |].
  split.
  { unfold heatmapRows. intros row Hrow. apply in_map_iff in Hrow.
    destruct Hrow as (tbl & <- & _). reflexivity. }
  split; [now intros tbl pt -> |].
  split; [apply newSet_firstSeen |]. split; [apply newSet_firstSeen |].
  split; [apply newSet_NoDup |]. split; [apply newSet_NoDup |].
  split; [intros tbl; apply newSet_In |].
  split; [intros pt; apply newSet_In |].
  apply renderHeatmap_None.
Qed.

Lemma cellAt_fold (cells : list HeatmapCell.t) (tbl pt : string)
    (acc : option HeatmapCell.t) :
  (forall h, In h cells -> noBar (HeatmapCell.table h) = true) ->
  noBar tbl = true ->
  fold_left (fun a kv => if (fst kv =? cellKey tbl pt)%string
                         then Some (snd kv) else a)
    (map (fun h => (cellKey (HeatmapCell.table h) (HeatmapCell.pii_type h), h)) cells)
    acc
  = fold_left (fun a h => if (HeatmapCell.table h =? tbl)%string
                             && (HeatmapCell.pii_type h =? pt)%string
                          then Some h else a) cells acc.
Proof.
  intros Hcells Htbl. revert acc.
  induction cells as [| h cells IH]; intros acc; simpl; [reflexivity |].
  rewrite cellKey_eqb by (auto; apply Hcells; now left).
  apply IH. intros h' Hh'. apply Hcells. now right.
Qed.

(** When no table name holds a vertical bar, the joined key identifies the
    pair: every position resolves to the collection's cell for exactly that
    table and PII type (the last one, should the pair occur twice), and to
    nothing when the collection has none. *)
Theorem cellAt_is_cell_of_pair :
  forall (cells : list HeatmapCell.t) (tbl pt : string),
  (forall h, In h cells -> noBar (HeatmapCell.table h) = true) ->
  noBar tbl = true ->
  cellAt (heatmap cells) tbl pt = cellOfPair cells tbl pt.
Proof.
  intros cells tbl pt Hcells Htbl.
  unfold cellAt, mapGet, heatmap, newMap, cellOfPair. simpl lookup.
  rewrite getOwn_fold_set. simpl getOwn. now apply cellAt_fold.
Qed.

(** An instance: a one-cell collection. *)
Lemma cellAt_users_email :
  cellAt (heatmap [Samples.cell "users" "email_address" true]) "users" "email_address"
  = cellOfPair [Samples.cell "users" "email_address" true] "users" "email_address".
Proof.
  apply (cellAt_is_cell_of_pair [Samples.cell "users" "email_address" true]
           "users" "email_address").
  - intros h [<- | []]. reflexivity.
  - reflexivity.
Defined.

(** C4, at the failing input.  Two cells, for ("a|b", "c") and for
    ("a", "b|c"), share the joined key "a|b|c".  The collection has a found
    cell for exactly ("a|b", "c"), yet that position resolves to the cell of
    the other pair and is drawn as not found; the matrix still has its 2 x 2
    cells. *)
Theorem heatmap_joined_key_collides :
  tables (heatmap Samples.barCells) = ["a|b"; "a"]
  /\ piiTypes (heatmap Samples.barCells) = ["c"; "b|c"]
  /\ cellCount (heatmapRows (heatmap Samples.barCells)) = 4%nat
  /\ cellOfPair Samples.barCells "a|b" "c" = Some (Samples.cell "a|b" "c" true)
  /\ cellAt (heatmap Samples.barCells) "a|b" "c" = Some (Samples.cell "a" "b|c" false)
  /\ heatmapRows (heatmap Samples.barCells)
     = [ ("a|b", [("c", false); ("b|c", false)]);
         ("a", [("c", false); ("b|c", false)]) ].
Proof.
  repeat (split; [reflexivity |]). reflexivity.
Qed.

End HeatmapFacts.

(* ===================================================================== *)
(** * Properties of the report engine: grouping by table *)
(* ===================================================================== *)

Section GroupingFacts.
Import Js ComplianceReport Spec.

Lemma setAdd_idem (s : list string) (k : string) :
  setAdd (setAdd s k) k = setAdd s k.
Proof.
  unfold setAdd at 1.
  assert (H : existsb (String.eqb k) (setAdd s k) = true); [| now rewrite H].
  apply existsb_exists. exists k. split; [| apply String.eqb_refl].
  apply setAdd_In. now right.
Qed.

Lemma groupStep_ok (g : Groups) (f : PIIFinding.t) :
  inherited (PIIFinding.table f) = false ->
  exists g',
    groupStep g f = Normal g'
    /\ map fst g' = setAdd (map fst g) (PIIFinding.table f)
    /\ (forall k, valueOf g' k
                  = valueOf g k
                    ++ (if (PIIFinding.table f =? k)%string then [f] else [])).
Proof.
  intros Hown. unfold groupStep, get.
  destruct (getOwn g (PIIFinding.table f)) as [arr |] eqn:E.
  - rewrite E. eexists. split; [reflexivity |]. split; [apply map_fst_set |].
    intros k. unfold valueOf. rewrite getOwn_set.
    destruct (PIIFinding.table f =? k)%string eqn:Ek.
    + apply String.eqb_eq in Ek. subst k. now rewrite E.
    + now rewrite app_nil_r.
  - rewrite Hown, getOwn_set, String.eqb_refl.
    eexists. split; [reflexivity |]. split.
    + rewrite !map_fst_set. apply setAdd_idem.
    + intros k. unfold valueOf. rewrite !getOwn_set.
      destruct (PIIFinding.table f =? k)%string eqn:Ek.
      * apply String.eqb_eq in Ek. subst k. now rewrite E.
      * now rewrite app_nil_r.
Qed.

Lemma groupLoop_ok (fs : list PIIFinding.t) :
  forall g : Groups,
  (forall f, In f fs -> inherited (PIIFinding.table f) = false) ->
  exists g',
    groupLoop fs g = Normal g'
    /\ map fst g' = fold_left setAdd (map PIIFinding.table fs) (map fst g)
    /\ (forall k, valueOf g' k = valueOf g k ++ ofTable k fs).
Proof.
  induction fs as [| f fs IH]; intros g Hown; simpl.
  - exists g. split; [reflexivity |]. split; [reflexivity |].
    intros k. now rewrite app_nil_r.
  - destruct (groupStep_ok g f) as (g1 & Hstep & Hkeys & Hvals);
      [apply Hown; now left |].
    rewrite Hstep.
    destruct (IH g1) as (g' & Hloop & Hkeys' & Hvals');
      [intros f' Hf'; apply Hown; now right |].
    exists g'. split; [exact Hloop |]. split; [now rewrite Hkeys', Hkeys |].
    intros k. rewrite Hvals', Hvals, <- app_assoc. f_equal.
    unfold ofTable. simpl. now destruct (PIIFinding.table f =? k)%string.
Qed.

(** A table with a name objects inherit makes the loop throw. *)
Lemma groupLoop_throws (fs : list PIIFinding.t) (f : PIIFinding.t) (g : Groups) :
  inherited (PIIFinding.table f) = true ->
  getOwn g (PIIFinding.table f) = None ->
  exists e, groupLoop (f :: fs) g = Throw e.
Proof.
  intros Hinh Hnone. simpl. unfold groupStep, get.
  rewrite Hnone, Hinh. cbn. rewrite ?Hnone, ?Hinh.
  eexists. reflexivity.
Qed.

Lemma flat_map_agree {S T : Type} (f g : S -> list T) (l : list S) :
  (forall a, In a l -> f a = g a) -> flat_map f l = flat_map g l.
Proof.
  induction l as [| a l IH]; intros H; simpl; [reflexivity |].
  rewrite (H a) by now left. f_equal. apply IH. intros b Hb. apply H. now right.
Qed.

Lemma flat_map_of_map {S T U : Type} (h : S -> T) (f : T -> list U) (l : list S) :
  flat_map f (map h l) = flat_map (fun x => f (h x)) l.
Proof.
  induction l as [| a l IH]; simpl; [reflexivity |]. now rewrite IH.
Qed.

(** Taking the findings of each of the distinct tables in turn gives back
    the list, up to order. *)
Lemma ofTable_flat_map_cons (x : PIIFinding.t) (l : list PIIFinding.t)
    (ks : list string) :
  NoDup ks -> In (PIIFinding.table x) ks ->
  Permutation (flat_map (fun k => ofTable k (x :: l)) ks)
              (x :: flat_map (fun k => ofTable k l) ks).
Proof.
  induction ks as [| k ks IH]; intros Hnd Hin; [destruct Hin |].
  inversion Hnd as [| ? ? Hnotin Hnd']; subst. simpl.
  destruct (PIIFinding.table x =? k)%string eqn:E.
  - apply String.eqb_eq in E. subst k. simpl. constructor.
    apply Permutation_app_head.
    rewrite (flat_map_agree (fun k => ofTable k (x :: l)) (fun k => ofTable k l));
      [reflexivity |].
    intros k Hk. unfold ofTable. simpl.
    destruct (PIIFinding.table x =? k)%string eqn:E; [| reflexivity].
    apply String.eqb_eq in E. subst k. contradiction.
  - apply String.eqb_neq in E. destruct Hin as [Heq | Hin]; [congruence |].
    rewrite (IH Hnd' Hin). symmetry. apply Permutation_middle.
Qed.

Lemma ofTable_flat_map_perm (l : list PIIFinding.t) (ks : list string) :
  NoDup ks -> (forall f, In f l -> In (PIIFinding.table f) ks) ->
  Permutation (flat_map (fun k => ofTable k l) ks) l.
Proof.
  intros Hnd. induction l as [| x l IH]; intros Hall.
  - replace (flat_map (fun k => ofTable k []) ks) with (@nil PIIFinding.t);
      [constructor |].
    clear. induction ks; simpl; auto.
  - rewrite ofTable_flat_map_cons; [| exact Hnd | apply Hall; now left].
    constructor. apply IH. intros f Hf. apply Hall. now right.
Qed.







End GroupingFacts.

Section GroupingTheorems.
Import Js ComplianceReport Spec.




End GroupingTheorems.

(* ===================================================================== *)
(** * Properties of the report engine: rendering *)
(* ===================================================================== *)

Section RenderFacts.
Import Js ComplianceReport Spec.
Variable localeCompare : string -> string -> Z.

Lemma sortedFindings_In (findings : list PIIFinding.t) (field : SortField.t)
    (asc : bool) (rf : RiskFilter.t) (f : PIIFinding.t) :
  In f (sortedFindings localeCompare findings field asc rf) -> In f findings.
Proof.
  unfold sortedFindings, applySort. rewrite sort_In. apply applyFilter_In.
Qed.

(** The render is total on every scan result none of whose findings sits in a
    table named like a property objects inherit: it completes normally; the
    heatmap section is present exactly when there are heatmap cells, the
    consent section exactly when there are consent mappings, the volume
    section exactly when there is at least one table-stats row; the findings
    section shows the sorted-and-filtered findings, grouped or flat. *)
Theorem render_succeeds :
  forall (data : ScanResponse.t) (view : View),
  (forall f, In f (ScanResponse.findings data) ->
     inherited (PIIFinding.table f) = false) ->
  exists report : Report,
    render localeCompare data view = Normal report
    /\ (heatmapSection report = None <-> ScanResponse.heatmap data = [])
    /\ (consentSection report = None <-> ScanResponse.consent_mappings data = [])
    /\ (volumeSection report = None
        <-> ScanResponse.table_stats data = None
            \/ ScanResponse.table_stats data = Some [])
    /\ findingsShown report
       = List.length (sortedFindings localeCompare (ScanResponse.findings data)
                        (sortField view) (sortAsc view) (riskFilter view))
    /\ (groupedView report = None <-> flatView report <> None).
Proof.
  intros data view Hown. unfold render.
  destruct (groupLoop_ok
              (sortedFindings localeCompare (ScanResponse.findings data)
                 (sortField view) (sortAsc view) (riskFilter view)) [])
    as (groups & Hg & _).
  { intros f Hf. apply Hown. eapply sortedFindings_In. exact Hf. }
  unfold groupedFindings. rewrite Hg. eexists. split; [reflexivity |]. simpl.
  split; [| split; [| split; [| split]]].
  - apply renderHeatmap_None.
  - unfold renderConsent.
    destruct (ScanResponse.consent_mappings data); split; congruence.
  - unfold renderVolume.
    destruct (ScanResponse.table_stats data) as [[| t stats] |].
    + split; auto.
    + split; [discriminate | intros [H | H]; discriminate H].
    + split; auto.
  - reflexivity.
  - destruct (isGrouped (viewMode view)), (isAll (riskFilter view)); simpl;
      split; congruence.
Qed.

End RenderFacts.

Section RenderEvaluations.
Import Js ComplianceReport Spec.

(** An instance: the scan result with empty collections throughout renders,
    with a zero Data Volume card, no heatmap, no consent section, no volume
    section and an empty grouped view. *)
Lemma render_empty_scan :
  render Samples.codeUnitCompare Samples.emptyScan initialView
  = Normal {| dataVolumeCard := Some 0;
              heatmapSection := None;
              findingsShown := 0;
              findingsOf := None;
              groupedView := Some [];
              flatView := None;
              consentSection := None;
              volumeSection := None |}
  /\ exists report : Report,
       render Samples.codeUnitCompare Samples.emptyScan initialView = Normal report
       /\ (heatmapSection report = None
           <-> ScanResponse.heatmap Samples.emptyScan = [])
       /\ (consentSection report = None
           <-> ScanResponse.consent_mappings Samples.emptyScan = [])
       /\ (volumeSection report = None
           <-> ScanResponse.table_stats Samples.emptyScan = None
               \/ ScanResponse.table_stats Samples.emptyScan = Some [])
       /\ findingsShown report
          = List.length (sortedFindings Samples.codeUnitCompare
                           (ScanResponse.findings Samples.emptyScan)
                           (sortField initialView) (sortAsc initialView)
                           (riskFilter initialView))
       /\ (groupedView report = None <-> flatView report <> None).
Proof.
  split; [reflexivity |].
  apply (render_succeeds Samples.codeUnitCompare Samples.emptyScan initialView).
  intros f [].
Defined.

(** C9, at the failing input.  A scan result whose one finding sits in a
    table named "constructor": the grouping step looks the name up on the
    groups object, finds the inherited property, and calls a [push] it does
    not have; the render throws instead of producing a report. *)
Theorem render_throws_on_constructor_table :
  groupedFindings (ScanResponse.findings Samples.constructorTableScan)
  = Throw (TypeError "groups[f.table].push is not a function")
  /\ render Samples.codeUnitCompare Samples.constructorTableScan initialView
     = Throw (TypeError "groups[f.table].push is not a function").
Proof.
  split; reflexivity.
Qed.

End RenderEvaluations.

(* ===================================================================== *)
(** * Further properties of the workflow controller *)
(* ===================================================================== *)

Section WorkflowInvariants.
Import Js Spec.

Lemma displayMessage_nonempty (err : AxiosError.t) (fallback : string) :
  fallback <> "" -> AxiosError.displayMessage err fallback <> "".
Proof.
  intros Hf.
  assert (Hrest : AxiosError.detailOf err = None \/ AxiosError.detailOf err = Some "" ->
                  AxiosError.displayMessage err fallback <> "").
  { intros Hd. destruct (AxiosError.message err) as [m |] eqn:Hm.
    - destruct (string_dec m "") as [-> | Hne].
      + rewrite displayMessage_fallback; auto.
      + rewrite (displayMessage_message err fallback m); auto.
    - rewrite displayMessage_fallback; auto. }
  destruct (AxiosError.detailOf err) as [d |] eqn:Hd; [| auto].
  destruct (string_dec d "") as [-> | Hne]; [auto |].
  rewrite (displayMessage_detail err fallback d); auto.
Qed.

Lemma initial_workflowInvariant : workflowInvariant App.initial.
Proof.
  unfold workflowInvariant. simpl. repeat split; try discriminate; try congruence.
Qed.

(** A stored error contradicts a test or a scan being under way. *)
Ltac stored_error Ierr :=
  match goal with
  | Hm : App.error _ = Some ?m |- _ =>
      destruct (Ierr m Hm) as (? & ? & ? & ?);
      solve [congruence | discriminate | assumption | contradiction]
  end.

Lemma step_workflowInvariant (a a' : App.t) (e : Workflow.Event) :
  Workflow.step a e = Some a' -> workflowInvariant a -> workflowInvariant a'.
Proof.
  unfold Workflow.step.
  destruct (Workflow.enabled a e) eqn:En; [| discriminate].
  intros H (Iscan & Ires & Itest & Irun & Ierr). injection H as <-.
  assert (Hnotest : ConnectionForm.canScan (App.testResult a) = true ->
                    App.isTesting a = false).
  { intros Hcan. destruct (App.isTesting a) eqn:Ht; [| reflexivity].
    destruct (Itest eq_refl) as [_ Hnone]. rewrite Hnone in Hcan.
    discriminate Hcan. }
  destruct e as [p | [res | err] | p | [res | err] | ]; simpl in En.
  - (* Test clicked: the form is shown and no scan is in flight *)
    apply andb_true_iff in En. destruct En as [Hc Hd].
    unfold Workflow.isConnect in Hc.
    destruct (App.state a) eqn:Hs; try discriminate.
    unfold workflowInvariant. simpl. rewrite Hs.
    intuition (try discriminate; try congruence); try stored_error Ierr.
  - (* the test resolved *)
    destruct (Itest En) as [Hs Hres].
    unfold workflowInvariant. simpl. rewrite Hs in *.
    intuition (try discriminate; try congruence); try stored_error Ierr.
  - (* the test was rejected *)
    destruct (Itest En) as [Hs Hres].
    unfold workflowInvariant. simpl. rewrite Hs in *.
    intuition (try discriminate; try congruence); try stored_error Ierr.
  - (* Scan clicked: the last test succeeded *)
    apply andb_true_iff in En. destruct En as [Hc Hd].
    unfold Workflow.isConnect in Hc.
    destruct (App.state a) eqn:Hs; try discriminate.
    unfold ConnectionForm.scanDisabled in Hd.
    apply negb_true_iff, orb_false_iff in Hd. destruct Hd as [Hcan Hsc].
    apply negb_false_iff in Hcan. specialize (Hnotest Hcan).
    unfold workflowInvariant. simpl.
    intuition (try discriminate; try congruence); try stored_error Ierr.
  - (* the scan resolved *)
    apply Iscan in En. destruct (Irun En) as [Hcan Hnt].
    unfold workflowInvariant. simpl.
    intuition (try discriminate; try congruence); try stored_error Ierr.
  - (* the scan was rejected *)
    apply Iscan in En. destruct (Irun En) as [Hcan Hnt].
    assert (Hnone : App.scanResult a = None).
    { destruct (App.scanResult a) eqn:Hr; [| reflexivity].
      assert (Hst : App.state a = App.results) by (apply Ires; discriminate).
      congruence. }
    unfold workflowInvariant. simpl.
    intuition (try discriminate; try congruence); try stored_error Ierr.
    match goal with
    | Hm : Some _ = Some _ |- _ => injection Hm as <-
    end.
    match goal with
    | Hm : AxiosError.displayMessage _ _ = "" |- _ =>
        now apply displayMessage_nonempty in Hm
    end.
  - (* New Scan clicked: the report is shown, nothing is in flight *)
    apply andb_true_iff in En. destruct En as [Hr _].
    unfold Workflow.isResults in Hr.
    destruct (App.state a) eqn:Hs; try discriminate.
    unfold workflowInvariant. simpl.
    intuition (try discriminate; try congruence); try stored_error Ierr.
Qed.

Lemma exec_workflowInvariant (trace : list Workflow.Event) :
  forall a0 a, Workflow.exec a0 trace = Some a ->
  workflowInvariant a0 -> workflowInvariant a.
Proof.
  induction trace as [| e trace IH]; intros a0 a H Inv; simpl in H.
  - now injection H as <-.
  - destruct (Workflow.step a0 e) as [a1 |] eqn:St; [| discriminate].
    eapply IH; [exact H |]. eapply step_workflowInvariant; eassumption.
Qed.

End WorkflowInvariants.

Section WorkflowViews.
Import Js Spec.

(** At every moment exactly one of the three views is on the page: the report
    exactly when a scan result is stored, the progress view exactly while a
    scan is in flight, the form otherwise.  A test in flight means the form
    is shown with no test result stored and no scan in flight.  A stored
    error is always shown as a banner, never an empty one, on the form and
    beside a successful test result. *)
Theorem page_shows_one_view :
  forall (trace : list Workflow.Event) (a : App.t),
  Workflow.exec App.initial trace = Some a ->
  Page.body a <> Page.Nothing
  /\ (App.scanResult a <> None <-> exists data, Page.body a = Page.Report data)
  /\ (App.isScanning a = true <-> exists msg, Page.body a = Page.Progress msg)
  /\ (App.isTesting a = true ->
      Page.body a = Page.Form /\ App.testResult a = None
      /\ App.isScanning a = false)
  /\ (forall msg, App.error a = Some msg ->
      Page.errorBanner a = Some msg /\ Page.body a = Page.Form
      /\ ConnectionForm.canScan (App.testResult a) = true).
Proof.
  intros trace a Hexec.
  destruct (exec_workflowInvariant trace _ _ Hexec initial_workflowInvariant)
    as (Iscan & Ires & Itest & Irun & Ierr).
  unfold Page.body, Page.errorBanner.
  split; [| split; [| split; [| split]]].
  - destruct (App.state a) eqn:Hs; try discriminate.
    destruct (App.scanResult a) eqn:Hr; [discriminate |].
    exfalso. now apply (proj1 Ires).
  - split.
    + intros Hr. apply Ires in Hr. rewrite Hr.
      destruct (App.scanResult a) as [data |] eqn:Hd.
      * now exists data.
      * exfalso. now apply (proj1 Ires Hr).
    + intros [data Hd]. destruct (App.state a) eqn:Hs; try discriminate.
      now apply Ires.
  - split.
    + intros Hsc. apply Iscan in Hsc. rewrite Hsc. eexists. reflexivity.
    + intros [msg Hm]. apply Iscan.
      destruct (App.state a) eqn:Hs; try discriminate; [reflexivity |].
      destruct (App.scanResult a); discriminate.
  - intros Ht. destruct (Itest Ht) as [Hs Hres]. rewrite Hs.
    split; [reflexivity |]. split; [exact Hres |].
    destruct (App.isScanning a) eqn:Hsc; [| reflexivity].
    assert (App.state a = App.scanning) by now apply Iscan. congruence.
  - intros msg Hm. destruct (Ierr msg Hm) as (Hne & Hs & Hcan & _).
    rewrite Hm, Hs. split; [| split; [reflexivity | exact Hcan]].
    unfold truthy. apply String.eqb_neq in Hne. now rewrite Hne.
Qed.

(** An instance: after the failed scan, the banner is on the form. *)
Lemma page_after_failed_scan :
  Page.body Samples.afterFailedScan <> Page.Nothing
  /\ Page.errorBanner Samples.afterFailedScan = Some "connection timeout".
Proof.
  destruct (page_shows_one_view Samples.failedScanTrace Samples.afterFailedScan
              eq_refl) as (Hbody & _ & _ & _ & Herr).
  split; [exact Hbody |].
  now destruct (Herr "connection timeout" eq_refl) as [Hb _].
Defined.

Lemma enabled_in_flight :
  forall (trace : list Workflow.Event) (a : App.t) (e : Workflow.Event),
  Workflow.exec App.initial trace = Some a ->
  App.isTesting a = true \/ App.isScanning a = true ->
  Workflow.enabled a e = true ->
  ~ (App.isTesting a = true /\ App.isScanning a = true)
  /\ ((exists settled, e = Workflow.TestSettled settled /\ App.isTesting a = true)
      \/ (exists settled, e = Workflow.ScanSettled settled
                          /\ App.isScanning a = true)).
Proof.
  intros trace a e Hexec Hflight En.
  destruct (exec_workflowInvariant trace _ _ Hexec initial_workflowInvariant)
    as (Iscan & Ires & Itest & Irun & Ierr).
  split.
  { intros [Ht Hsc]. apply Iscan in Hsc. destruct (Itest Ht) as [Hs _].
    congruence. }
  destruct e as [p | settled | p | settled | ]; simpl in En.
  - exfalso. apply andb_true_iff in En. destruct En as [_ Hd].
    unfold ConnectionForm.testDisabled in Hd.
    apply negb_true_iff, orb_false_iff in Hd. destruct Hd as [Hd Hsc].
    apply orb_false_iff in Hd. destruct Hd as [_ Ht].
    destruct Hflight; congruence.
  - left. now exists settled.
  - exfalso. apply andb_true_iff in En. destruct En as [_ Hd].
    unfold ConnectionForm.scanDisabled in Hd.
    apply negb_true_iff, orb_false_iff in Hd. destruct Hd as [Hcan Hsc].
    apply negb_false_iff in Hcan.
    destruct Hflight as [Ht | Hs]; [| congruence].
    destruct (Itest Ht) as [_ Hnone]. rewrite Hnone in Hcan. discriminate.
  - right. now exists settled.
  - exfalso. apply andb_true_iff in En. destruct En as [Hr _].
    unfold Workflow.isResults in Hr.
    destruct (App.state a) eqn:Hs; try discriminate.
    destruct Hflight as [Ht | Hsc].
    + destruct (Itest Ht) as [Hc _]. discriminate.
    + apply Iscan in Hsc. discriminate.
Qed.

(** While a request is in flight nothing can be clicked: the one event that
    can happen is that request settling.  A test and a scan are never in
    flight together. *)
Theorem in_flight_only_settles :
  forall (trace : list Workflow.Event) (a : App.t) (e : Workflow.Event),
  Workflow.exec App.initial trace = Some a ->
  App.isTesting a = true \/ App.isScanning a = true ->
  Workflow.enabled a e = true ->
  ~ (App.isTesting a = true /\ App.isScanning a = true)
  /\ ((exists settled, e = Workflow.TestSettled settled /\ App.isTesting a = true)
      \/ (exists settled, e = Workflow.ScanSettled settled
                          /\ App.isScanning a = true)).
Proof.
  intros trace a e Hexec Hflight En.
  now apply (enabled_in_flight trace).
Qed.

(** An instance: a test is in flight and settles. *)
Lemma in_flight_test_settles :
  ~ (App.isTesting (fst (App.handleTest_begin App.initial)) = true
     /\ App.isScanning (fst (App.handleTest_begin App.initial)) = true)
  /\ ((exists settled,
         Workflow.TestSettled (Fulfilled Samples.testOk) = Workflow.TestSettled settled
         /\ App.isTesting (fst (App.handleTest_begin App.initial)) = true)
      \/ (exists settled,
            Workflow.TestSettled (Fulfilled Samples.testOk) = Workflow.ScanSettled settled
            /\ App.isScanning (fst (App.handleTest_begin App.initial)) = true)).
Proof.
  apply (in_flight_only_settles [Workflow.ClickTest Samples.params]
           (fst (App.handleTest_begin App.initial))
           (Workflow.TestSettled (Fulfilled Samples.testOk))).
  - reflexivity.
  - left. reflexivity.
  - reflexivity.
Defined.

(** New Scan, wherever it can be clicked, puts the page back into the state
    it started in (but for the last progress message, which no view shows
    then): the form is shown, nothing is stored, nothing is in flight, and
    Scan is disabled until a test succeeds. *)
Theorem new_scan_returns_to_start :
  forall (trace : list Workflow.Event) (a a' : App.t),
  Workflow.exec App.initial trace = Some a ->
  Workflow.step a Workflow.ClickNewScan = Some a' ->
  a' = {| App.state := App.connect; App.scanResult := None;
          App.testResult := None; App.isTesting := false;
          App.isScanning := false; App.progressMsg := App.progressMsg a;
          App.error := None |}
  /\ Page.body a' = Page.body App.initial
  /\ Page.errorBanner a' = None
  /\ ConnectionForm.scanDisabled a' = true.
Proof.
  intros trace a a' Hexec Hstep.
  destruct (exec_workflowInvariant trace _ _ Hexec initial_workflowInvariant)
    as (Iscan & Ires & Itest & Irun & Ierr).
  unfold Workflow.step in Hstep.
  destruct (Workflow.enabled a Workflow.ClickNewScan) eqn:En; [| discriminate].
  injection Hstep as <-. simpl in En.
  apply andb_true_iff in En. destruct En as [Hr _].
  unfold Workflow.isResults in Hr.
  destruct (App.state a) eqn:Hs; try discriminate.
  assert (Ht : App.isTesting a = false).
  { destruct (App.isTesting a) eqn:Hx; [| reflexivity].
    destruct (Itest eq_refl) as [Hc _]. discriminate. }
  assert (Hsc : App.isScanning a = false).
  { destruct (App.isScanning a) eqn:Hx; [| reflexivity].
    assert (App.results = App.scanning) by now apply Iscan. discriminate. }
  simpl. rewrite Ht, Hsc. repeat split.
Qed.

(** An instance: test, scan, New Scan. *)
Lemma new_scan_after_full_cycle :
  exists a' : App.t,
    Workflow.exec App.initial Samples.fullCycleTrace = Some a'
    /\ Page.body a' = Page.body App.initial
    /\ ConnectionForm.scanDisabled a' = true.
Proof.
  pose (a := {| App.state := App.results;
                App.scanResult := Some Samples.emptyScan;
                App.testResult := Some (App.ofResponse Samples.testOk);
                App.isTesting := false; App.isScanning := false;
                App.progressMsg := "Running PII classifiers across all tables...";
                App.error := None |}).
  pose (a' := {| App.state := App.connect; App.scanResult := None;
                 App.testResult := None; App.isTesting := false;
                 App.isScanning := false;
                 App.progressMsg := "Running PII classifiers across all tables...";
                 App.error := None |}).
  exists a'. split; [vm_compute; reflexivity |].
  assert (Hexec : Workflow.exec App.initial
                [ Workflow.ClickTest Samples.params;
                  Workflow.TestSettled (Fulfilled Samples.testOk);
                  Workflow.ClickScan Samples.params;
                  Workflow.ScanSettled (Fulfilled Samples.emptyScan) ] = Some a)
    by (vm_compute; reflexivity).
  assert (Hstep : Workflow.step a Workflow.ClickNewScan = Some a')
    by (vm_compute; reflexivity).
  destruct (new_scan_returns_to_start _ a a' Hexec Hstep) as (_ & Hbody & _ & Hscan).
  split; [exact Hbody | exact Hscan].
Defined.

(** A scan from click to settling.  The click puts the progress view on the
    page with no banner, and nothing but the scan settling can follow.  When
    the scan resolves the report is shown for that result under the report
    title; when it is rejected the form is back with the message as the
    banner and Scan is enabled again at once, without a new test. *)
Theorem scan_from_click_to_settling :
  forall (trace : list Workflow.Event) (a a1 : App.t) (p : ConnectionParams.t),
  Workflow.exec App.initial trace = Some a ->
  Workflow.step a (Workflow.ClickScan p) = Some a1 ->
  Page.body a1 = Page.Progress "Running PII classifiers across all tables..."
  /\ Page.errorBanner a1 = None
  /\ (forall e, Workflow.enabled a1 e = true ->
      exists settled, e = Workflow.ScanSettled settled)
  /\ (forall res, exists a2,
        Workflow.step a1 (Workflow.ScanSettled (Fulfilled res)) = Some a2
        /\ Page.body a2 = Page.Report res
        /\ Page.headerSub a2 = "DPDP Compliance Report"
        /\ Page.errorBanner a2 = None)
  /\ (forall err, exists a2,
        Workflow.step a1 (Workflow.ScanSettled (Rejected err)) = Some a2
        /\ Page.body a2 = Page.Form
        /\ Page.errorBanner a2 = Some (AxiosError.displayMessage err "Scan failed")
        /\ ConnectionForm.scanDisabled a2 = false).
Proof.
  intros trace a a1 p Hexec Hstep.
  assert (Hexec1 : Workflow.exec App.initial (trace ++ [Workflow.ClickScan p])
                   = Some a1).
  { clear -Hexec Hstep. revert Hexec. generalize App.initial.
    induction trace as [| e trace IH]; intros a0 H; simpl in *.
    - injection H as ->. now rewrite Hstep.
    - destruct (Workflow.step a0 e); [now apply IH | discriminate]. }
  unfold Workflow.step in Hstep.
  destruct (Workflow.enabled a (Workflow.ClickScan p)) eqn:En; [| discriminate].
  injection Hstep as <-. simpl in En.
  apply andb_true_iff in En. destruct En as [_ Hd].
  unfold ConnectionForm.scanDisabled in Hd.
  apply negb_true_iff, orb_false_iff in Hd. destruct Hd as [Hcan _].
  apply negb_false_iff in Hcan.
  split; [reflexivity |]. split; [reflexivity |]. split; [| split].
  - intros e En.
    destruct (enabled_in_flight _ _ e Hexec1 (or_intror eq_refl) En)
      as [_ [(settled & _ & Ht) | (settled & He & _)]].
    + destruct (exec_workflowInvariant _ _ _ Hexec1 initial_workflowInvariant)
        as (_ & _ & Itest & _). destruct (Itest Ht) as [Hc _]. discriminate.
    + now exists settled.
  - intros res. eexists. split; [reflexivity |]. repeat split.
  - intros err. eexists. split; [reflexivity |]. simpl.
    split; [reflexivity |]. split.
    + unfold Page.errorBanner. simpl. unfold truthy.
      assert (Hne : AxiosError.displayMessage err "Scan failed" <> "")
        by (apply displayMessage_nonempty; discriminate).
      apply String.eqb_neq in Hne. now rewrite Hne.
    + unfold ConnectionForm.scanDisabled. simpl. now rewrite Hcan.
Qed.

(** An instance: the scan that follows the first successful test. *)
Lemma scan_after_first_test :
  Page.body (fst (App.handleScan_begin
                    (fst (App.handleTest (Fulfilled Samples.testOk) App.initial))))
  = Page.Progress "Running PII classifiers across all tables...".
Proof.
  pose (a := fst (App.handleTest (Fulfilled Samples.testOk) App.initial)).
  assert (Hexec : Workflow.exec App.initial
                  [ Workflow.ClickTest Samples.params;
                    Workflow.TestSettled (Fulfilled Samples.testOk) ] = Some a)
    by (vm_compute; reflexivity).
  assert (Hstep : Workflow.step a (Workflow.ClickScan Samples.params)
                  = Some (fst (App.handleScan_begin a)))
    by (vm_compute; reflexivity).
  exact (proj1 (scan_from_click_to_settling _ a _ Samples.params Hexec Hstep)).
Defined.

End WorkflowViews.

(* ===================================================================== *)
(** * Further properties of the connection form *)
(* ===================================================================== *)

Section FormEdits.
Import Js Spec.

Lemma database_after_change (dbType : string) (p : ConnectionParams.t)
    (d : ConnectionForm.Defaults) :
  getOwn ConnectionForm.DB_DEFAULTS dbType = Some d ->
  ConnectionParams.database (ConnectionForm.handleDbTypeChange dbType p)
  = match getOwn ConnectionForm.DB_DEFAULTS (ConnectionParams.db_type p) with
    | Some d0 =>
        if (ConnectionParams.database p =? ConnectionForm.database d0)%string
        then ConnectionForm.database d else ConnectionParams.database p
    | None => ConnectionParams.database p
    end.
Proof.
  intros Hd. unfold ConnectionForm.handleDbTypeChange, ConnectionForm.defaultsFor,
    ConnectionForm.databaseIsDefault, ConnectionForm.currentDefaultDatabase.
  rewrite Hd. cbn [ConnectionParams.database].
  now destruct (getOwn ConnectionForm.DB_DEFAULTS (ConnectionParams.db_type p)).
Qed.

Lemma params_ext (p q : ConnectionParams.t) :
  ConnectionParams.db_type p = ConnectionParams.db_type q ->
  ConnectionParams.host p = ConnectionParams.host q ->
  ConnectionParams.port p = ConnectionParams.port q ->
  ConnectionParams.database p = ConnectionParams.database q ->
  ConnectionParams.schema_name p = ConnectionParams.schema_name q ->
  ConnectionParams.user p = ConnectionParams.user q ->
  ConnectionParams.password p = ConnectionParams.password q ->
  p = q.
Proof.
  destruct p, q. simpl. intros. subst. reflexivity.
Qed.

(** Choosing the type that is already chosen changes nothing further:
    applying the change twice is applying it once. *)
Theorem handleDbTypeChange_idempotent :
  forall (dbType : string) (p : ConnectionParams.t),
  In dbType ConnectionForm.dbTypeOptions ->
  ConnectionForm.handleDbTypeChange dbType
    (ConnectionForm.handleDbTypeChange dbType p)
  = ConnectionForm.handleDbTypeChange dbType p.
Proof.
  intros dbType p Hin.
  destruct (dbTypeOptions_own dbType Hin) as [d Hd].
  assert (Hdb : ConnectionParams.database
                  (ConnectionForm.handleDbTypeChange dbType
                     (ConnectionForm.handleDbTypeChange dbType p))
                = ConnectionParams.database
                    (ConnectionForm.handleDbTypeChange dbType p)).
  { rewrite (database_after_change dbType _ d Hd).
    change (ConnectionParams.db_type (ConnectionForm.handleDbTypeChange dbType p))
      with dbType.
    rewrite Hd.
    destruct (ConnectionParams.database
                (ConnectionForm.handleDbTypeChange dbType p)
              =? ConnectionForm.database d)%string eqn:E; [| reflexivity].
    apply String.eqb_eq in E. now rewrite E. }
  apply params_ext; try reflexivity. exact Hdb.
Qed.

(** An instance: MySQL chosen twice from the initial form. *)
Lemma handleDbTypeChange_mysql_twice :
  ConnectionForm.handleDbTypeChange "mysql"
    (ConnectionForm.handleDbTypeChange "mysql" ConnectionForm.DEFAULT_PARAMS)
  = ConnectionForm.handleDbTypeChange "mysql" ConnectionForm.DEFAULT_PARAMS.
Proof.
  apply (handleDbTypeChange_idempotent "mysql" ConnectionForm.DEFAULT_PARAMS).
  simpl. right. left. reflexivity.
Defined.

(** Switching to another type and back.  The type is restored and the port is
    the original type's default (an edited port is not brought back).  The
    database name is restored, except that a name which is not the original
    type's default but equals the other type's default comes back as the
    original type's default; host, schema, user and password are untouched. *)
Theorem handleDbTypeChange_there_and_back :
  forall (p : ConnectionParams.t) (other : string)
         (d0 d1 : ConnectionForm.Defaults),
  getOwn ConnectionForm.DB_DEFAULTS (ConnectionParams.db_type p) = Some d0 ->
  getOwn ConnectionForm.DB_DEFAULTS other = Some d1 ->
  let q := ConnectionForm.handleDbTypeChange (ConnectionParams.db_type p)
             (ConnectionForm.handleDbTypeChange other p) in
  ConnectionParams.db_type q = ConnectionParams.db_type p
  /\ ConnectionParams.port q = ConnectionForm.port d0
  /\ ConnectionParams.database q
     = (if (ConnectionParams.database p =? ConnectionForm.database d1)%string
           && negb (ConnectionParams.database p =? ConnectionForm.database d0)%string
        then ConnectionForm.database d0
        else ConnectionParams.database p)
  /\ ConnectionParams.host q = ConnectionParams.host p
  /\ ConnectionParams.schema_name q = ConnectionParams.schema_name p
  /\ ConnectionParams.user q = ConnectionParams.user p
  /\ ConnectionParams.password q = ConnectionParams.password p.
Proof.
  intros p other d0 d1 H0 H1. cbv zeta.
  split; [reflexivity |]. split.
  { unfold ConnectionForm.handleDbTypeChange at 1, ConnectionForm.defaultsFor.
    cbn [ConnectionParams.port]. now rewrite H0. }
  split; [| repeat split].
  rewrite (database_after_change _ _ d0 H0).
  change (ConnectionParams.db_type (ConnectionForm.handleDbTypeChange other p))
    with other.
  rewrite H1, (database_after_change _ _ d1 H1), H0.
  destruct (ConnectionParams.database p =? ConnectionForm.database d0)%string eqn:E0.
  - rewrite String.eqb_refl. apply String.eqb_eq in E0. rewrite E0.
    now rewrite andb_false_r.
  - now rewrite andb_true_r.
Qed.

(** An instance: on PostgreSQL with the database name typed as "testdb",
    to MySQL and back: the typed name is replaced by "postgres". *)
Lemma handleDbTypeChange_testdb_lost :
  ConnectionParams.database
    (ConnectionForm.handleDbTypeChange "postgresql"
       (ConnectionForm.handleDbTypeChange "mysql"
          (FormEdit.set (FormEdit.database "testdb") ConnectionForm.DEFAULT_PARAMS)))
  = "postgres".
Proof.
  exact (proj1 (proj2 (proj2
    (handleDbTypeChange_there_and_back
       (FormEdit.set (FormEdit.database "testdb") ConnectionForm.DEFAULT_PARAMS)
       "mysql" _ _ eq_refl eq_refl)))).
Defined.

Lemma portOrDefault_nonzero (parsed : option Z) : FormEdit.portOrDefault parsed <> 0.
Proof.
  unfold FormEdit.portOrDefault. destruct parsed as [n |]; [| discriminate].
  destruct (n =? 0) eqn:E; [discriminate |]. now apply Z.eqb_neq.
Qed.

Lemma apply_formInvariant (e : FormEdit.Edit) (p : ConnectionParams.t) :
  FormEdit.possible e = true -> formInvariant p -> formInvariant (FormEdit.apply e p).
Proof.
  intros Hpos [Htype Hport]. unfold formInvariant.
  destruct e; simpl; try (split; assumption).
  - cbn [FormEdit.possible] in Hpos. apply existsb_exists in Hpos.
    destruct Hpos as (t & Hin & Heq). apply String.eqb_eq in Heq. subst t.
    split; [exact Hin |].
    simpl in Hin. destruct Hin as [<- | [<- | []]]; discriminate.
  - split; [exact Htype | apply portOrDefault_nonzero].
Qed.

Lemma run_formInvariant (edits : list FormEdit.Edit) :
  forall p0 p, FormEdit.run p0 edits = Some p -> formInvariant p0 -> formInvariant p.
Proof.
  induction edits as [| e edits IH]; intros p0 p H Inv; simpl in H.
  - now injection H as <-.
  - destruct (FormEdit.possible e) eqn:Hpos; [| discriminate].
    eapply IH; [exact H |]. now apply apply_formInvariant.
Qed.

Lemma DEFAULT_PARAMS_formInvariant : formInvariant ConnectionForm.DEFAULT_PARAMS.
Proof. split; [now left | discriminate]. Qed.

(** However the form is edited, its type stays one of the two the select
    lets the user choose, and its port is never zero (an empty or zero port
    entry becomes 5432).  Switching between the selectable types never
    enables or disables Test Connection. *)
Theorem type_change_keeps_canTest :
  forall (edits : list FormEdit.Edit) (p : ConnectionParams.t) (dbType : string),
  FormEdit.run ConnectionForm.DEFAULT_PARAMS edits = Some p ->
  In dbType FormEdit.selectableDbTypes ->
  In (ConnectionParams.db_type p) FormEdit.selectableDbTypes
  /\ ConnectionParams.port p <> 0
  /\ ConnectionForm.canTest (ConnectionForm.handleDbTypeChange dbType p)
     = ConnectionForm.canTest p.
Proof.
  intros edits p dbType Hrun Hin.
  destruct (run_formInvariant edits _ _ Hrun DEFAULT_PARAMS_formInvariant)
    as [Htype Hport].
  split; [exact Htype |]. split; [exact Hport |].
  unfold ConnectionForm.canTest.
  change (ConnectionParams.host (ConnectionForm.handleDbTypeChange dbType p))
    with (ConnectionParams.host p).
  change (ConnectionParams.user (ConnectionForm.handleDbTypeChange dbType p))
    with (ConnectionParams.user p).
  change (ConnectionParams.password (ConnectionForm.handleDbTypeChange dbType p))
    with (ConnectionParams.password p).
  assert (Hdb : truthy (ConnectionParams.database
                          (ConnectionForm.handleDbTypeChange dbType p))
                = truthy (ConnectionParams.database p)); [| now rewrite Hdb].
  simpl in Hin, Htype.
  destruct Hin as [<- | [<- | []]];
    destruct Htype as [Ht | [Ht | []]];
    (erewrite database_after_change by reflexivity);
    rewrite <- Ht; simpl getOwn; cbv beta iota;
    match goal with
    | |- context [(?x =? ?y)%string] =>
        destruct (x =? y)%string eqn:E; [| reflexivity];
        apply String.eqb_eq in E; rewrite E; reflexivity
    end.
Qed.

(** An instance: user and password typed in, then MySQL chosen. *)
Lemma type_change_after_credentials :
  ConnectionForm.canTest
    (ConnectionForm.handleDbTypeChange "mysql"
       (FormEdit.set (FormEdit.password "b")
          (FormEdit.set (FormEdit.user "a") ConnectionForm.DEFAULT_PARAMS)))
  = ConnectionForm.canTest
      (FormEdit.set (FormEdit.password "b")
         (FormEdit.set (FormEdit.user "a") ConnectionForm.DEFAULT_PARAMS)).
Proof.
  refine (proj2 (proj2 (type_change_keeps_canTest
            [FormEdit.ChangeUser "a"; FormEdit.ChangePassword "b"] _ "mysql"
            eq_refl _))).
  simpl. right. left. reflexivity.
Defined.

End FormEdits.

(* ===================================================================== *)
(** * Properties of the page and its form together *)
(* ===================================================================== *)

Section SessionFacts.
Import Js Spec.

Lemma initial_sessionInvariant : sessionInvariant Session.initial.
Proof.
  split; [apply initial_workflowInvariant |]. split.
  - simpl. split; [discriminate | intros H; now contradiction H].
  - simpl. intros p H. injection H as <-. apply DEFAULT_PARAMS_formInvariant.
Qed.

Lemma remount_invariant (before : option ConnectionParams.t) (a' : App.t) :
  (forall p, before = Some p -> formInvariant p) ->
  (Session.remount before a' = None <-> App.state a' <> App.connect)
  /\ (forall p, Session.remount before a' = Some p -> formInvariant p).
Proof.
  intros Hform. unfold Session.remount.
  destruct (App.state a'); [| split; [split; congruence | discriminate] ..].
  destruct before as [p0 |]; split.
  - split; [discriminate | intros H; now contradiction H].
  - intros p H. injection H as <-. now apply Hform.
  - split; [discriminate | intros H; now contradiction H].
  - intros p H. injection H as <-. apply DEFAULT_PARAMS_formInvariant.
Qed.

Lemma step_sessionInvariant (s s' : Session.t) (e : Session.Event)
    (r : option Session.Request) :
  Session.step s e = Some (s', r) -> sessionInvariant s ->
  sessionInvariant s'
  /\ (forall q, r = Some q -> wellFormed q).
Proof.
  intros Hstep (Iapp & Imount & Iform).
  assert (Hwf : forall we a',
            Session.workflowEvent s e = Some we ->
            Workflow.step (Session.app s) we = Some a' ->
            forall q, Session.request we = Some q -> wellFormed q).
  { intros we a' Hwe Hws q Hq. unfold Workflow.step in Hws.
    destruct (Workflow.enabled (Session.app s) we) eqn:En; [| discriminate].
    destruct e; simpl in Hwe; try discriminate;
      try (injection Hwe as <-; discriminate Hq);
      destruct (Session.form s) as [p |] eqn:Hp; try discriminate;
      injection Hwe as <-; simpl in Hq; injection Hq as <-; simpl.
    - split; [now apply Iform |].
      simpl in En. apply andb_true_iff in En. destruct En as [_ En].
      unfold ConnectionForm.testDisabled in En.
      destruct (ConnectionForm.canTest p); [reflexivity | discriminate En].
    - now apply Iform. }
  assert (Hgen : forall we a',
            Session.workflowEvent s e = Some we ->
            Workflow.step (Session.app s) we = Some a' ->
            sessionInvariant
              {| Session.app := a';
                 Session.form := Session.remount (Session.form s) a' |}).
  { intros we a' _ Hws.
    destruct (remount_invariant (Session.form s) a' Iform) as [H1 H2].
    split; [exact (step_workflowInvariant _ _ _ Hws Iapp) |].
    split; [exact H1 | exact H2]. }
  destruct e as [ed | | | settled | settled |]; unfold Session.step in Hstep.
  - destruct (Session.form s) as [p |] eqn:Hp; [| discriminate].
    destruct (FormEdit.possible ed) eqn:Hpos; [| discriminate].
    injection Hstep as <- <-. split; [| discriminate].
    split; [exact Iapp |]. split.
    + simpl. split; [discriminate |]. intros Hne. apply Imount in Hne. congruence.
    + simpl. intros q Hq. injection Hq as <-.
      apply apply_formInvariant; [exact Hpos | now apply Iform].
  - destruct (Session.workflowEvent s Session.ClickTest) as [we |] eqn:Hwe;
      [| discriminate].
    destruct (Workflow.step (Session.app s) we) as [a' |] eqn:Hws; [| discriminate].
    injection Hstep as <- <-. split; [now apply (Hgen we) | now apply (Hwf we a')].
  - destruct (Session.workflowEvent s Session.ClickScan) as [we |] eqn:Hwe;
      [| discriminate].
    destruct (Workflow.step (Session.app s) we) as [a' |] eqn:Hws; [| discriminate].
    injection Hstep as <- <-. split; [now apply (Hgen we) | now apply (Hwf we a')].
  - destruct (Session.workflowEvent s (Session.TestSettled settled)) as [we |] eqn:Hwe;
      [| discriminate].
    destruct (Workflow.step (Session.app s) we) as [a' |] eqn:Hws; [| discriminate].
    injection Hstep as <- <-. split; [now apply (Hgen we) | now apply (Hwf we a')].
  - destruct (Session.workflowEvent s (Session.ScanSettled settled)) as [we |] eqn:Hwe;
      [| discriminate].
    destruct (Workflow.step (Session.app s) we) as [a' |] eqn:Hws; [| discriminate].
    injection Hstep as <- <-. split; [now apply (Hgen we) | now apply (Hwf we a')].
  - destruct (Session.workflowEvent s Session.ClickNewScan) as [we |] eqn:Hwe;
      [| discriminate].
    destruct (Workflow.step (Session.app s) we) as [a' |] eqn:Hws; [| discriminate].
    injection Hstep as <- <-. split; [now apply (Hgen we) | now apply (Hwf we a')].
Qed.

Lemma exec_sessionInvariant (trace : list Session.Event) :
  forall (s s' : Session.t) (rs : list Session.Request),
  Session.exec s trace = Some (s', rs) -> sessionInvariant s ->
  sessionInvariant s' /\ Forall wellFormed rs.
Proof.
  induction trace as [| e trace IH]; intros s s' rs Hexec Hinv; simpl in Hexec.
  - injection Hexec as <- <-. split; [exact Hinv | constructor].
  - destruct (Session.step s e) as [[s1 r] |] eqn:Hstep; [| discriminate].
    destruct (Session.exec s1 trace) as [[s2 rs2] |] eqn:Hrest; [| discriminate].
    injection Hexec as <- <-.
    destruct (step_sessionInvariant s s1 e r Hstep Hinv) as [Hinv1 Hr].
    destruct (IH s1 s2 rs2 Hrest Hinv1) as [Hinv2 Hrs].
    split; [exact Hinv2 |].
    destruct r as [q |]; [constructor; [now apply Hr | exact Hrs] | exact Hrs].
Qed.


(** Every call the page makes was allowed by the form's controls: its
    database type is PostgreSQL or MySQL, never one of the disabled ("Coming
    Soon") options, and its port is not 0; a connection test moreover is only
    ever asked for with host, database, user and password all filled in. *)
Theorem requests_are_well_formed :
  forall (trace : list Session.Event) (s : Session.t) (rs : list Session.Request)
         (r : Session.Request),
  Session.exec Session.initial trace = Some (s, rs) ->
  In r rs ->
  match r with
  | Session.testConnection p =>
      In (ConnectionParams.db_type p) FormEdit.selectableDbTypes
      /\ ConnectionParams.port p <> 0
      /\ ConnectionForm.canTest p = true
  | Session.runScan p =>
      In (ConnectionParams.db_type p) FormEdit.selectableDbTypes
      /\ ConnectionParams.port p <> 0
  end.
Proof.
  intros trace s rs r Hexec Hin.
  destruct (exec_sessionInvariant trace _ _ _ Hexec initial_sessionInvariant)
    as [_ Hall].
  rewrite Forall_forall in Hall. specialize (Hall r Hin).
  destruct r as [p | p]; simpl in Hall.
  - destruct Hall as [[Ht Hp] Hc]. repeat split; assumption.
  - exact Hall.
Qed.

(** When the form comes back it has forgotten what was typed.  After a
    rejected scan the form is mounted afresh with the default parameters,
    user and password empty: Test Connection is disabled, yet Scan Now is
    enabled (the earlier test result is still stored), and a click on it asks
    for a scan with the default parameters.  After New Scan the form shows
    the defaults as well. *)
Theorem form_forgets_after_scan :
  forall (trace : list Session.Event) (s : Session.t) (rs : list Session.Request),
  Session.exec Session.initial trace = Some (s, rs) ->
  (forall err, App.isScanning (Session.app s) = true ->
     exists s' s'',
       Session.step s (Session.ScanSettled (Rejected err)) = Some (s', None)
       /\ Session.form s' = Some ConnectionForm.DEFAULT_PARAMS
       /\ ConnectionForm.testDisabled ConnectionForm.DEFAULT_PARAMS (Session.app s')
          = true
       /\ ConnectionForm.scanDisabled (Session.app s') = false
       /\ Session.step s' Session.ClickScan
          = Some (s'', Some (Session.runScan ConnectionForm.DEFAULT_PARAMS)))
  /\ (forall s' r, Session.step s Session.ClickNewScan = Some (s', r) ->
      Session.form s' = Some ConnectionForm.DEFAULT_PARAMS /\ r = None).
Proof.
  intros trace s rs Hexec.
  destruct (exec_sessionInvariant trace _ _ _ Hexec initial_sessionInvariant)
    as [((Iscan & Ires & Itest & Irun & Ierr) & Imount & Iform) _].
  split.
  - intros err Hsc.
    assert (Hst : App.state (Session.app s) = App.scanning) by now apply Iscan.
    destruct (Irun Hst) as [Hcan Htest].
    assert (Hform : Session.form s = None).
    { apply Imount. rewrite Hst. discriminate. }
    unfold Session.step. cbn [Session.workflowEvent].
    unfold Workflow.step. cbn [Workflow.enabled]. rewrite Hsc.
    cbn [Workflow.handler Session.request]. rewrite Hform.
    eexists. eexists. split; [reflexivity |].
    split; [reflexivity |]. split; [reflexivity |].
    assert (Hdis : ConnectionForm.scanDisabled
                     (fst (App.handleScan_settle (Rejected err) (Session.app s)))
                   = false).
    { unfold ConnectionForm.scanDisabled. simpl. now rewrite Hcan. }
    split; [exact Hdis |].
    cbn [Session.form Session.app Session.remount].
    simpl Session.remount. cbn [Session.form Session.app].
    unfold Workflow.enabled. rewrite Hdis. reflexivity.
  - intros s' r. unfold Session.step. cbn [Session.workflowEvent].
    unfold Workflow.step.
    destruct (Workflow.enabled (Session.app s) Workflow.ClickNewScan) eqn:En;
      [| discriminate].
    intros H. injection H as <- <-. split; [| reflexivity].
    simpl in En. apply andb_true_iff in En. destruct En as [Hres _].
    unfold Workflow.isResults in Hres.
    destruct (App.state (Session.app s)) eqn:Hst; try discriminate.
    assert (Hform : Session.form s = None) by (apply Imount; discriminate).
    simpl. now rewrite Hform.
Qed.

End SessionFacts.

Section SessionInstances.
Import Js Spec.

(** An instance: credentials typed, a successful test, a rejected scan; the
    two calls made carry the typed credentials. *)
Lemma requests_of_failed_scan_session :
  In (ConnectionParams.db_type
        (FormEdit.set (FormEdit.password "b")
           (FormEdit.set (FormEdit.user "a") ConnectionForm.DEFAULT_PARAMS)))
     FormEdit.selectableDbTypes
  /\ ConnectionParams.port
       (FormEdit.set (FormEdit.password "b")
          (FormEdit.set (FormEdit.user "a") ConnectionForm.DEFAULT_PARAMS)) <> 0
  /\ ConnectionForm.canTest
       (FormEdit.set (FormEdit.password "b")
          (FormEdit.set (FormEdit.user "a") ConnectionForm.DEFAULT_PARAMS)) = true.
Proof.
  pose (p := FormEdit.set (FormEdit.password "b")
               (FormEdit.set (FormEdit.user "a") ConnectionForm.DEFAULT_PARAMS)).
  pose (s := {| Session.app := Samples.afterFailedScan;
                Session.form := Some ConnectionForm.DEFAULT_PARAMS |}).
  assert (Hexec : Session.exec Session.initial Samples.failedScanSession
                  = Some (s, [Session.testConnection p; Session.runScan p]))
    by (vm_compute; reflexivity).
  exact (requests_are_well_formed Samples.failedScanSession s _
           (Session.testConnection p) Hexec (or_introl eq_refl)).
Defined.

(** An instance: the same session; Scan Now then asks for a scan with the
    default parameters. *)
Lemma form_after_failed_scan_session :
  exists s s'' : Session.t,
    Session.exec Session.initial Samples.failedScanSession
    = Some (s, [ Session.testConnection
                   (FormEdit.set (FormEdit.password "b")
                      (FormEdit.set (FormEdit.user "a")
                         ConnectionForm.DEFAULT_PARAMS));
                 Session.runScan
                   (FormEdit.set (FormEdit.password "b")
                      (FormEdit.set (FormEdit.user "a")
                         ConnectionForm.DEFAULT_PARAMS)) ])
    /\ Session.form s = Some ConnectionForm.DEFAULT_PARAMS
    /\ Session.step s Session.ClickScan
       = Some (s'', Some (Session.runScan ConnectionForm.DEFAULT_PARAMS)).
Proof.
  pose (p := FormEdit.set (FormEdit.password "b")
               (FormEdit.set (FormEdit.user "a") ConnectionForm.DEFAULT_PARAMS)).
  pose (s0 := {| Session.app :=
                   fst (App.handleScan_begin
                          (fst (App.handleTest (Fulfilled Samples.testOk)
                                  App.initial)));
                 Session.form := None |}).
  assert (Hexec : Session.exec Session.initial
                    [ Session.EditForm (FormEdit.ChangeUser "a");
                      Session.EditForm (FormEdit.ChangePassword "b");
                      Session.ClickTest;
                      Session.TestSettled (Fulfilled Samples.testOk);
                      Session.ClickScan ]
                  = Some (s0, [Session.testConnection p; Session.runScan p]))
    by (vm_compute; reflexivity).
  destruct (form_forgets_after_scan _ s0 _ Hexec) as [Hfail _].
  destruct (Hfail Samples.timeoutError eq_refl)
    as (s' & s'' & Hstep & Hform & _ & _ & Hscan).
  exists s', s''. split; [| split; [exact Hform | exact Hscan]].
  change Samples.failedScanSession
    with ([ Session.EditForm (FormEdit.ChangeUser "a");
            Session.EditForm (FormEdit.ChangePassword "b");
            Session.ClickTest;
            Session.TestSettled (Fulfilled Samples.testOk);
            Session.ClickScan ] ++ [Session.ScanSettled (Rejected Samples.timeoutError)]).
  vm_compute in Hstep. injection Hstep as <-. vm_compute. reflexivity.
Defined.

End SessionInstances.

(* ===================================================================== *)
(** * Further properties of the report engine: every field, both directions *)
(* ===================================================================== *)

Section SortEveryField.
Import Js ComplianceReport Spec.
Variable localeCompare : string -> string -> Z.

Lemma sortCompare_sub_Q (q1 q2 : Q) :
  sortCompare (sub (Num q1) (Num q2)) = (q1 ?= q2)%Q.
Proof.
  simpl. destruct (Qcompare_spec q1 q2) as [E | L | G].
  - apply (proj1 (Qeq_alt _ _)). lra.
  - apply (proj1 (Qlt_alt _ _)). lra.
  - apply (proj1 (Qgt_alt _ _)). lra.
Qed.

Lemma sortCompare_inject_Z (z : Z) : sortCompare (Num (inject_Z z)) = (z ?= 0).
Proof.
  simpl. unfold Qcompare, inject_Z. simpl. now rewrite Z.mul_1_r.
Qed.

Lemma compare_sgn_opp (z1 z2 : Z) :
  Z.sgn z2 = - Z.sgn z1 -> (z2 ?= 0) = CompOpp (z1 ?= 0).
Proof.
  destruct z1, z2; simpl; intros H; try reflexivity; discriminate H.
Qed.

(** The sign of the comparator, ascending. *)
Lemma ascending_sign (field : SortField.t) (a b : PIIFinding.t) :
  inherited (PIIFinding.risk_level a) = false ->
  inherited (PIIFinding.risk_level b) = false ->
  sortCompare (compareFindings localeCompare field true a b)
  = match field with
    | SortField.confidence =>
        (PIIFinding.confidence a ?= PIIFinding.confidence b)%Q
    | SortField.risk_level =>
        riskRank (PIIFinding.risk_level a) ?= riskRank (PIIFinding.risk_level b)
    | _ => localeCompare (stringField field a) (stringField field b) ?= 0
    end.
Proof.
  intros Ha Hb. destruct field.
  - apply sortCompare_inject_Z.
  - apply sortCompare_inject_Z.
  - apply sortCompare_inject_Z.
  - apply sortCompare_sub_Q.
  - now apply compare_risk_ascending.
Qed.

Lemma descending_sign (field : SortField.t) (a b : PIIFinding.t) :
  sortCompare (compareFindings localeCompare field false a b)
  = CompOpp (sortCompare (compareFindings localeCompare field true a b)).
Proof.
  unfold compareFindings. cbv zeta. apply sortCompare_neg.
Qed.

Lemma ascending_sign_swap (field : SortField.t) (a b : PIIFinding.t) :
  consistentCompare localeCompare ->
  inherited (PIIFinding.risk_level a) = false ->
  inherited (PIIFinding.risk_level b) = false ->
  sortCompare (compareFindings localeCompare field true b a)
  = CompOpp (sortCompare (compareFindings localeCompare field true a b)).
Proof.
  intros (_ & Hswap & _) Ha Hb.
  rewrite (ascending_sign field b a Hb Ha), (ascending_sign field a b Ha Hb).
  destruct field; try (apply compare_sgn_opp, Hswap).
  - symmetry. apply Qcompare_antisym.
  - apply Z.compare_antisym.
Qed.

Lemma ascending_notAfter (field : SortField.t) (a b : PIIFinding.t) :
  inherited (PIIFinding.risk_level a) = false ->
  inherited (PIIFinding.risk_level b) = false ->
  sortCompare (compareFindings localeCompare field true a b) <> Gt
  <-> keyLe localeCompare field a b.
Proof.
  intros Ha Hb. rewrite (ascending_sign field a b Ha Hb).
  destruct field; simpl;
    solve [symmetry; apply Z.compare_le_iff | symmetry; apply Qle_alt].
Qed.

Lemma keyLe_trans (field : SortField.t) (a b c : PIIFinding.t) :
  consistentCompare localeCompare ->
  keyLe localeCompare field a b -> keyLe localeCompare field b c ->
  keyLe localeCompare field a c.
Proof.
  intros (_ & _ & Htrans). destruct field; simpl;
    try (apply Htrans); [apply Qle_trans | apply Z.le_trans].
Qed.

Lemma notAfter_inOrder (field : SortField.t) (asc : bool) (a b : PIIFinding.t) :
  consistentCompare localeCompare ->
  inherited (PIIFinding.risk_level a) = false ->
  inherited (PIIFinding.risk_level b) = false ->
  notAfter (compareFindings localeCompare field asc) a b
  <-> inOrder localeCompare field asc a b.
Proof.
  intros Hc Ha Hb. unfold notAfter, inOrder. destruct asc.
  - now apply ascending_notAfter.
  - rewrite descending_sign, <- (ascending_notAfter field b a Hb Ha),
      (ascending_sign_swap field a b Hc Ha Hb).
    destruct (sortCompare (compareFindings localeCompare field true a b));
      simpl; split; congruence.
Qed.

Lemma sortedFindings_inOrder (findings : list PIIFinding.t) (field : SortField.t)
    (asc : bool) (rf : RiskFilter.t) :
  consistentCompare localeCompare ->
  (forall f, In f findings -> inherited (PIIFinding.risk_level f) = false) ->
  StronglySorted (inOrder localeCompare field asc)
    (sortedFindings localeCompare findings field asc rf).
Proof.
  intros Hc Hown. unfold sortedFindings, applySort.
  set (l := applyFilter rf findings).
  assert (Hl : forall f, In f l -> inherited (PIIFinding.risk_level f) = false).
  { intros f Hf. apply Hown. now apply applyFilter_In in Hf. }
  set (c := compareFindings localeCompare field asc).
  assert (Hle : forall a b, In a l -> In b l ->
            (notAfter c a b <-> inOrder localeCompare field asc a b)).
  { intros a b Ha Hb. apply notAfter_inOrder; auto. }
  apply (StronglySorted_impl_In (notAfter c)).
  - intros a b Ha Hb. apply sort_In in Ha. apply sort_In in Hb. now apply Hle.
  - apply sort_sorted.
    + intros a b Ha Hb Hgt. unfold notAfter, c in *.
      destruct asc.
      * rewrite (ascending_sign_swap field a b Hc (Hl a Ha) (Hl b Hb)), Hgt.
        discriminate.
      * rewrite descending_sign in *.
        rewrite (ascending_sign_swap field a b Hc (Hl a Ha) (Hl b Hb)).
        destruct (sortCompare (compareFindings localeCompare field true a b));
          simpl in *; congruence.
    + intros x y z Hx Hy Hz Hxy Hyz.
      apply Hle in Hxy; auto. apply Hle in Hyz; auto. apply Hle; auto.
      unfold inOrder in *. destruct asc.
      * now apply (keyLe_trans field x y z).
      * now apply (keyLe_trans field z y x).
Qed.


(** Sorting puts the findings in the order of the chosen field and
    direction: by confidence value, by risk rank, or by the collation of the
    table, column or PII-type name; descending is that order turned round.
    The hypotheses make the comparator a consistent one. *)
Theorem sort_orders_by_field :
  forall (findings : list PIIFinding.t) (field : SortField.t) (asc : bool)
         (rf : RiskFilter.t),
  consistentCompare localeCompare ->
  (forall f, In f findings -> inherited (PIIFinding.risk_level f) = false) ->
  StronglySorted (inOrder localeCompare field asc)
    (sortedFindings localeCompare findings field asc rf).
Proof.
  intros findings field asc rf. apply sortedFindings_inOrder.
Qed.

End SortEveryField.

Section SortEveryFieldInstance.
Import Js ComplianceReport Spec.

(** An instance: findings of two tables sorted by confidence, descending. *)
Lemma sort_by_confidence_descending :
  StronglySorted (inOrder Samples.codeUnitCompare SortField.confidence false)
    (sortedFindings Samples.codeUnitCompare Samples.mixedTables
       SortField.confidence false RiskFilter.all).
Proof.
  apply (sort_orders_by_field Samples.codeUnitCompare Samples.mixedTables
           SortField.confidence false RiskFilter.all).
  - exact codeUnitCompare_consistent.
  - intros f [<- | [<- | [<- | []]]]; reflexivity.
Defined.

End SortEveryFieldInstance.

(* ===================================================================== *)
(** * When exactly the report cannot be rendered *)
(* ===================================================================== *)

Section RenderFailure.
Import Js ComplianceReport Spec.

(** The one exception the grouping step can raise. *)
Lemma groupStep_cases (g : Groups) (f : PIIFinding.t) :
  match groupStep g f with
  | Normal _ =>
      getOwn g (PIIFinding.table f) <> None
      \/ inherited (PIIFinding.table f) = false
  | Throw e =>
      e = TypeError "groups[f.table].push is not a function"
      /\ getOwn g (PIIFinding.table f) = None
      /\ inherited (PIIFinding.table f) = true
  end.
Proof.
  unfold groupStep, get.
  destruct (getOwn g (PIIFinding.table f)) as [arr |] eqn:E.
  - rewrite E. left. discriminate.
  - destruct (inherited (PIIFinding.table f)) eqn:Hinh.
    + cbn. rewrite E. cbn. auto.
    + cbn. rewrite getOwn_set, String.eqb_refl. now right.
Qed.

(** Grouping from the empty object succeeds exactly when no table name is a
    name objects inherit, and fails in one way only. *)
Lemma groupLoop_cases (fs : list PIIFinding.t) :
  forall g : Groups,
  (forall k, In k (map fst g) -> inherited k = false) ->
  match groupLoop fs g with
  | Normal _ => forall f, In f fs -> inherited (PIIFinding.table f) = false
  | Throw e =>
      e = TypeError "groups[f.table].push is not a function"
      /\ exists f, In f fs /\ inherited (PIIFinding.table f) = true
  end.
Proof.
  induction fs as [| f fs IH]; intros g Hkeys; simpl.
  - intros f [].
  - pose proof (groupStep_cases g f) as Hstep.
    destruct (groupStep g f) as [g1 | e] eqn:E.
    + assert (Hf : inherited (PIIFinding.table f) = false).
      { destruct Hstep as [Hown | Hf]; [| exact Hf].
        apply Hkeys. destruct (in_dec string_dec (PIIFinding.table f) (map fst g))
          as [Hin | Hout]; [exact Hin |].
        exfalso. apply Hown. now apply getOwn_None. }
      destruct (groupStep_ok g f Hf) as (g1' & E' & Hk1 & _).
      rewrite E in E'. injection E' as <-.
      specialize (IH g1). destruct (groupLoop fs g1) as [g' | e].
      * intros f' [<- | Hf']; [exact Hf | apply IH; [| exact Hf']].
        intros k Hk. rewrite Hk1 in Hk. apply setAdd_In in Hk.
        destruct Hk as [Hk | ->]; [now apply Hkeys | exact Hf].
      * destruct IH as (-> & f' & Hf' & Hinh).
        { intros k Hk. rewrite Hk1 in Hk. apply setAdd_In in Hk.
          destruct Hk as [Hk | ->]; [now apply Hkeys | exact Hf]. }
        split; [reflexivity |]. exists f'. split; [now right | exact Hinh].
    + destruct Hstep as (-> & _ & Hinh). split; [reflexivity |].
      exists f. split; [now left | exact Hinh].
Qed.

Lemma groupedFindings_cases (sorted : list PIIFinding.t) :
  match groupedFindings sorted with
  | Normal _ => forall f, In f sorted -> inherited (PIIFinding.table f) = false
  | Throw e =>
      e = TypeError "groups[f.table].push is not a function"
      /\ exists f, In f sorted /\ inherited (PIIFinding.table f) = true
  end.
Proof.
  apply groupLoop_cases. intros k [].
Qed.

Variable localeCompare : string -> string -> Z.

Lemma sortedFindings_In_iff (findings : list PIIFinding.t) (field : SortField.t)
    (asc : bool) (rf : RiskFilter.t) (f : PIIFinding.t) :
  In f (sortedFindings localeCompare findings field asc rf)
  <-> In f (applyFilter rf findings).
Proof. unfold sortedFindings, applySort. apply sort_In. Qed.

Lemma render_normal_iff (data : ScanResponse.t) (view : View) :
  (exists r, render localeCompare data view = Normal r)
  <-> (forall f, In f (applyFilter (riskFilter view) (ScanResponse.findings data)) ->
       inherited (PIIFinding.table f) = false).
Proof.
  unfold render.
  pose proof (groupedFindings_cases
                (sortedFindings localeCompare (ScanResponse.findings data)
                   (sortField view) (sortAsc view) (riskFilter view))) as Hc.
  destruct (groupedFindings _) as [groups | e0]; split.
  - intros _ f Hf. apply Hc. now apply sortedFindings_In_iff.
  - intros _. eexists. reflexivity.
  - intros [r Hr]. discriminate Hr.
  - intros Hall. destruct Hc as (_ & f & Hf & Hinh).
    apply (proj1 (sortedFindings_In_iff _ _ _ _ _)) in Hf.
    rewrite (Hall f Hf) in Hinh. discriminate Hinh.
Qed.

(** The render throws exactly when a finding that passes the current risk
    filter sits in a table named like a property every object inherits
    ([constructor], [toString], ...); it then throws the one [TypeError] of
    the grouping step, whatever the sort field, direction and view mode.  A
    finding the filter hides does no harm. *)
Theorem render_throws_exactly_when :
  forall (data : ScanResponse.t) (view : View),
  ((exists e, render localeCompare data view = Throw e)
   <-> exists f, In f (applyFilter (riskFilter view) (ScanResponse.findings data))
                 /\ inherited (PIIFinding.table f) = true)
  /\ (forall e, render localeCompare data view = Throw e ->
      e = TypeError "groups[f.table].push is not a function").
Proof.
  intros data view. unfold render.
  pose proof (groupedFindings_cases
                (sortedFindings localeCompare (ScanResponse.findings data)
                   (sortField view) (sortAsc view) (riskFilter view))) as Hc.
  destruct (groupedFindings _) as [groups | e0].
  - split; [split |].
    + intros [e He]. discriminate He.
    + intros (f & Hf & Hinh).
      apply (proj2 (sortedFindings_In_iff _ (sortField view) (sortAsc view) _ _))
        in Hf.
      rewrite (Hc f Hf) in Hinh. discriminate Hinh.
    + intros e He. discriminate He.
  - destruct Hc as (-> & f & Hf & Hinh). split; [split |].
    + intros _. exists f. split; [| exact Hinh].
      now apply (proj1 (sortedFindings_In_iff _ _ _ _ _)) in Hf.
    + intros _. eexists. reflexivity.
    + intros e He. now injection He as <-.
Qed.

End RenderFailure.

(* ===================================================================== *)
(** * The findings section: counts *)
(* ===================================================================== *)

Section FindingsCounts.
Import Js ComplianceReport Spec.
Variable localeCompare : string -> string -> Z.

(** What grouping from the empty object yields, for table names that are the
    groups object's own. *)
Lemma groupedFindings_entries (sorted : list PIIFinding.t) :
  (forall f, In f sorted -> inherited (PIIFinding.table f) = false) ->
  exists groups : Groups,
    groupedFindings sorted = Normal groups
    /\ NoDup (map fst (entries groups))
    /\ (forall k, In k (map fst (entries groups))
                  <-> In k (map PIIFinding.table sorted))
    /\ (forall k fs, In (k, fs) (entries groups) -> fs = ofTable k sorted)
    /\ Permutation (List.concat (map snd (entries groups))) sorted.
Proof.
  intros Hown.
  destruct (groupLoop_ok sorted [] Hown) as (g & Hloop & Hkeys & Hvals).
  simpl in Hkeys. fold (newSet (map PIIFinding.table sorted)) in Hkeys.
  assert (Hnd : NoDup (map fst g)) by (rewrite Hkeys; apply newSet_NoDup).
  assert (Hgroup : forall k fs, In (k, fs) g -> fs = ofTable k sorted).
  { intros k fs Hin. specialize (Hvals k). unfold valueOf in Hvals.
    rewrite (getOwn_In g k fs Hnd Hin) in Hvals. exact Hvals. }
  assert (Hperm : Permutation (map fst (entries g)) (map fst g))
    by (apply Permutation_map, entries_perm).
  exists g. split; [exact Hloop |]. split; [| split; [| split]].
  - now apply (Permutation_NoDup (symmetry Hperm)).
  - intros k. rewrite <- (newSet_In (map PIIFinding.table sorted)), <- Hkeys.
    split; apply Permutation_in; [| symmetry]; exact Hperm.
  - intros k fs Hin. apply Hgroup. now apply entries_In.
  - rewrite <- flat_map_concat_map.
    rewrite (Permutation_flat_map snd (entries_perm g)).
    rewrite (flat_map_agree snd (fun kv => ofTable (fst kv) sorted)).
    + rewrite <- (flat_map_of_map fst (fun k => ofTable k sorted)).
      apply ofTable_flat_map_perm; [exact Hnd |].
      intros f Hf. rewrite Hkeys. apply newSet_In. now apply in_map.
    + intros [k fs] Hin. now apply Hgroup.
Qed.

Lemma sortedFindings_perm (findings : list PIIFinding.t) (field : SortField.t)
    (asc : bool) (rf : RiskFilter.t) :
  Permutation (sortedFindings localeCompare findings field asc rf)
              (applyFilter rf findings).
Proof. unfold sortedFindings, applySort. apply sort_perm. Qed.

Lemma groupedShown_all (view : View) :
  ReportView.groupedShown view = true ->
  riskFilter view = RiskFilter.all /\ viewMode view = ViewMode.grouped.
Proof.
  unfold ReportView.groupedShown.
  destruct (riskFilter view), (viewMode view); simpl; intros H;
    try discriminate H; now split.
Qed.

(** The grouped view accounts for every finding.  When it is shown (no risk
    filter, grouped mode) for a scan whose table names are the groups' own,
    the groups' "PII columns" counters add up to the number of findings of
    the scan and their "high-risk" counters to the number of its critical
    and high findings; no table has two groups, no group is empty, and a
    group holds findings of its own table only. *)
Theorem grouped_view_counts_add_up :
  forall (data : ScanResponse.t) (view : View),
  (forall f, In f (ScanResponse.findings data) ->
     inherited (PIIFinding.table f) = false) ->
  ReportView.groupedShown view = true ->
  exists (report : Report) (groups : list Group),
    render localeCompare data view = Normal report
    /\ groupedView report = Some groups
    /\ flatView report = None
    /\ list_sum (map (fun g => List.length (groupFindings g)) groups)
       = List.length (ScanResponse.findings data)
    /\ list_sum (map groupHighRisk groups)
       = List.length (filter isHighRisk (ScanResponse.findings data))
    /\ NoDup (map groupTable groups)
    /\ (forall g, In g groups ->
        groupFindings g <> []
        /\ forall f, In f (groupFindings g) ->
             PIIFinding.table f = groupTable g
             /\ In f (ScanResponse.findings data)).
Proof.
  intros data view Hown Hshown.
  destruct (groupedShown_all view Hshown) as [Hrf Hvm].
  unfold render. rewrite Hrf, Hvm.
  set (sorted := sortedFindings localeCompare (ScanResponse.findings data)
                   (sortField view) (sortAsc view) RiskFilter.all).
  assert (Hsorted : Permutation sorted (ScanResponse.findings data))
    by apply sortedFindings_perm.
  destruct (groupedFindings_entries sorted) as (g & Hg & Hnd & Hkeys & Hgroup & Hperm).
  { intros f Hf. apply Hown. now apply (Permutation_in _ Hsorted). }
  rewrite Hg. eexists. eexists. split; [reflexivity |]. simpl.
  split; [reflexivity |]. split; [reflexivity |].
  split; [| split; [| split]].
  - rewrite map_map. simpl.
    rewrite <- (map_map snd (@List.length PIIFinding.t)), <- length_concat.
    rewrite (Permutation_length Hperm). now apply Permutation_length.
  - rewrite map_map. simpl.
    rewrite <- (map_map (fun e => filter isHighRisk (snd e)) (@List.length PIIFinding.t)).
    rewrite <- length_concat, <- (map_map snd (filter isHighRisk)), concat_filter_map.
    apply Permutation_length, filter_perm. now rewrite Hperm.
  - rewrite map_map. simpl. exact Hnd.
  - intros grp Hin. apply in_map_iff in Hin. destruct Hin as ([k fs] & <- & Hin).
    simpl. pose proof (Hgroup k fs Hin) as ->. split.
    + assert (Hk : In k (map PIIFinding.table sorted)).
      { apply Hkeys. change k with (fst (k, ofTable k sorted)). now apply in_map. }
      apply in_map_iff in Hk. destruct Hk as (f & Hf & Hfin).
      intros Hnil.
      assert (Hmem : In f (ofTable k sorted)).
      { apply filter_In. split; [exact Hfin | now apply String.eqb_eq]. }
      rewrite Hnil in Hmem. destruct Hmem.
    + intros f Hf. apply filter_In in Hf. destruct Hf as [Hf Hk].
      apply String.eqb_eq in Hk. split; [exact Hk |].
      now apply (Permutation_in _ Hsorted).
Qed.

(** The heading "Detailed Findings (n of m)".  Whenever the report renders,
    n is the number of rows that pass the risk filter and never exceeds the
    number m of findings of the scan; "of m" is shown exactly while a filter
    is on; without a filter n counts all findings, under the high filter the
    critical and high ones; and the flat table, when shown, has n rows. *)
Theorem findings_heading_counts :
  forall (data : ScanResponse.t) (view : View) (report : Report),
  render localeCompare data view = Normal report ->
  (findingsShown report <= List.length (ScanResponse.findings data))%nat
  /\ (findingsOf report = None <-> riskFilter view = RiskFilter.all)
  /\ (forall m, findingsOf report = Some m ->
      m = List.length (ScanResponse.findings data))
  /\ (riskFilter view = RiskFilter.all ->
      findingsShown report = List.length (ScanResponse.findings data))
  /\ (riskFilter view = RiskFilter.high ->
      findingsShown report
      = List.length (filter isHighRisk (ScanResponse.findings data)))
  /\ (forall rows, flatView report = Some rows ->
      List.length rows = findingsShown report).
Proof.
  intros data view report. unfold render.
  destruct (groupedFindings _) as [groups | e]; [| discriminate].
  intros H. injection H as <-. simpl.
  rewrite (Permutation_length (sortedFindings_perm _ _ _ _)).
  split; [| split; [| split; [| split; [| split]]]].
  - destruct (riskFilter view); simpl; auto using filter_length_le.
  - destruct (riskFilter view); simpl; split; congruence.
  - intros m. destruct (riskFilter view); simpl; congruence.
  - now intros ->.
  - now intros ->.
  - intros rows.
    destruct (negb (isGrouped (viewMode view)) || negb (isAll (riskFilter view)));
      [| discriminate].
    intros H. injection H as <-. apply Permutation_length, sortedFindings_perm.
Qed.

End FindingsCounts.

Section FindingsCountsInstances.
Import Js ComplianceReport Spec.

(** An instance: the scan with findings of two tables, as first shown. *)
Lemma grouped_view_of_mixed_scan :
  exists (report : Report) (groups : list Group),
    render Samples.codeUnitCompare Samples.mixedScan initialView = Normal report
    /\ groupedView report = Some groups
    /\ list_sum (map (fun g => List.length (groupFindings g)) groups) = 3%nat
    /\ list_sum (map groupHighRisk groups) = 2%nat.
Proof.
  destruct (grouped_view_counts_add_up Samples.codeUnitCompare Samples.mixedScan
              initialView)
    as (report & groups & Hr & Hg & _ & Hsum & Hhigh & _).
  - intros f [<- | [<- | [<- | []]]]; reflexivity.
  - reflexivity.
  - exists report, groups. repeat split; assumption.
Defined.

(** An instance: the same scan under the high-risk filter: "2 of 3". *)
Lemma heading_of_mixed_scan_high :
  exists report : Report,
    render Samples.codeUnitCompare Samples.mixedScan
      (ReportView.scrollToHighRisk initialView) = Normal report
    /\ findingsShown report = 2%nat
    /\ findingsOf report = Some 3%nat.
Proof.
  eexists. split; [reflexivity |].
  destruct (findings_heading_counts Samples.codeUnitCompare Samples.mixedScan
              (ReportView.scrollToHighRisk initialView) _ eq_refl)
    as (_ & _ & _ & _ & Hhigh & _).
  split; [exact (Hhigh eq_refl) | reflexivity].
Defined.

End FindingsCountsInstances.

(* ===================================================================== *)
(** * The report's controls *)
(* ===================================================================== *)

Section ViewControls.
Import Js ComplianceReport Spec.

Lemma setHas_In (s : list string) (x : string) : setHas s x = true <-> In x s.
Proof.
  unfold setHas. rewrite existsb_exists. split.
  - intros (y & Hy & E). apply String.eqb_eq in E. now subst.
  - intros H. exists x. split; [exact H | apply String.eqb_refl].
Qed.

Lemma setHas_ext (s s' : list string) (x : string) :
  (In x s <-> In x s') -> setHas s x = setHas s' x.
Proof.
  intros H. destruct (setHas s x) eqn:E, (setHas s' x) eqn:E'; try reflexivity.
  - apply (proj1 (setHas_In _ _)), H, (proj2 (setHas_In _ _)) in E. congruence.
  - apply (proj1 (setHas_In _ _)), H, (proj2 (setHas_In _ _)) in E'. congruence.
Qed.

Lemma setDelete_In (s : list string) (x y : string) :
  In y (setDelete s x) <-> In y s /\ y <> x.
Proof.
  unfold setDelete. rewrite filter_In, negb_true_iff, String.eqb_neq. reflexivity.
Qed.

(** Membership after a toggle. *)
Lemma toggleTable_In (table : string) (v : View) (k : string) :
  In k (expandedTables (ReportView.toggleTable table v))
  <-> (if (k =? table)%string then ~ In k (expandedTables v)
       else In k (expandedTables v)).
Proof.
  unfold ReportView.toggleTable, ReportView.setExpanded. simpl.
  destruct (setHas (newSet (expandedTables v)) table) eqn:E.
  - apply (proj1 (setHas_In _ _)) in E. apply (proj1 (newSet_In _ _)) in E.
    rewrite setDelete_In, newSet_In.
    destruct (k =? table)%string eqn:Ek.
    + apply String.eqb_eq in Ek. subst k.
      split; [intros [_ H]; now contradiction H | intros H; contradiction].
    + apply String.eqb_neq in Ek. tauto.
  - assert (Hout : ~ In table (expandedTables v)).
    { intros H. apply (proj2 (newSet_In _ _)) in H.
      apply (proj2 (setHas_In _ _)) in H. congruence. }
    rewrite setAdd_In, newSet_In.
    destruct (k =? table)%string eqn:Ek.
    + apply String.eqb_eq in Ek. subst k.
      split; [intros _; exact Hout | intros _; now right].
    + apply String.eqb_neq in Ek. tauto.
Qed.

Lemma toggleTable_has (table : string) (v : View) (k : string) :
  setHas (expandedTables (ReportView.toggleTable table v)) k
  = if (k =? table)%string then negb (setHas (expandedTables v) k)
    else setHas (expandedTables v) k.
Proof.
  pose proof (toggleTable_In table v k) as H.
  destruct (k =? table)%string.
  - destruct (setHas (expandedTables v) k) eqn:E; simpl.
    + apply (proj1 (setHas_In _ _)) in E.
      destruct (setHas _ k) eqn:E'; [| reflexivity].
      apply (proj1 (setHas_In _ _)) in E'. apply H in E'. contradiction.
    + apply (proj2 (setHas_In _ _)), H. intros Hin.
      apply (proj2 (setHas_In _ _)) in Hin. congruence.
  - now apply setHas_ext.
Qed.

Lemma toggleTable_NoDup (table : string) (v : View) :
  NoDup (expandedTables (ReportView.toggleTable table v)).
Proof.
  unfold ReportView.toggleTable, ReportView.setExpanded. simpl.
  destruct (setHas _ table).
  - apply NoDup_filter, newSet_NoDup.
  - apply setAdd_NoDup, newSet_NoDup.
Qed.

(** A click on a group's header opens that group if it was closed and closes
    it if it was open; every other group stays as it was, and so do the sort
    column and direction, the risk filter and the view mode.  A second click
    on the same header undoes the first. *)
Theorem toggle_flips_one_group :
  forall (table : string) (v : View) (entry : string * list PIIFinding.t),
  groupExpanded (renderGroup (ReportView.toggleTable table v) entry)
  = (if (fst entry =? table)%string
     then negb (groupExpanded (renderGroup v entry))
     else groupExpanded (renderGroup v entry))
  /\ groupExpanded (renderGroup (ReportView.toggleTable table
                                   (ReportView.toggleTable table v)) entry)
     = groupExpanded (renderGroup v entry)
  /\ NoDup (expandedTables (ReportView.toggleTable table v))
  /\ sortField (ReportView.toggleTable table v) = sortField v
  /\ sortAsc (ReportView.toggleTable table v) = sortAsc v
  /\ riskFilter (ReportView.toggleTable table v) = riskFilter v
  /\ viewMode (ReportView.toggleTable table v) = viewMode v.
Proof.
  intros table v [k fs].
  change (groupExpanded (renderGroup ?w (k, fs)))
    with (setHas (expandedTables w) k).
  cbn [fst]. repeat split.
  - change (groupExpanded (renderGroup ?w (k, fs)))
      with (setHas (expandedTables w) k). apply toggleTable_has.
  - change (groupExpanded (renderGroup ?w (k, fs)))
      with (setHas (expandedTables w) k).
    rewrite !toggleTable_has. destruct (k =? table)%string; [| reflexivity].
    apply negb_involutive.
  - apply toggleTable_NoDup.
Qed.

End ViewControls.

Section ViewTraces.
Import Js ComplianceReport Spec.
Variable localeCompare : string -> string -> Z.
Variable data : ScanResponse.t.

Lemma groupsOf_render (v : View) :
  ReportView.groupsOf localeCompare data v = None
  <-> exists e, render localeCompare data v = Throw e.
Proof.
  unfold ReportView.groupsOf, render.
  destruct (groupedFindings _) as [g | e]; split.
  - discriminate.
  - intros [e He]. discriminate He.
  - intros _. now exists e.
  - reflexivity.
Qed.

(** The groups of a render are groups of tables of the scan. *)
Lemma groupsOf_keys (v : View) (groups : Groups) (k : string) :
  ReportView.groupsOf localeCompare data v = Some groups ->
  In k (map fst (entries groups)) ->
  In k (map PIIFinding.table (ScanResponse.findings data)).
Proof.
  unfold ReportView.groupsOf.
  set (sorted := sortedFindings localeCompare (ScanResponse.findings data)
                   (sortField v) (sortAsc v) (riskFilter v)).
  pose proof (groupedFindings_cases sorted) as Hc.
  destruct (groupedFindings sorted) as [g | e] eqn:Hg; [| discriminate].
  intros H Hk. injection H as <-.
  destruct (groupedFindings_entries sorted Hc) as (g' & Hg' & _ & Hkeys & _).
  rewrite Hg in Hg'. injection Hg' as <-.
  apply Hkeys, in_map_iff in Hk. destruct Hk as (f & <- & Hf).
  apply in_map. now apply (sortedFindings_In localeCompare) in Hf.
Qed.

(** If the report renders as first shown, it renders in every view state. *)
Lemma render_initial_then_always (v : View) :
  (exists r0, render localeCompare data initialView = Normal r0) ->
  exists r, render localeCompare data v = Normal r.
Proof.
  intros H0. apply render_normal_iff. intros f Hf.
  apply (proj1 (render_normal_iff localeCompare data initialView) H0).
  simpl. now apply applyFilter_In in Hf.
Qed.

Lemma step_viewInvariant (v v' : View) (e : ReportView.Event) :
  ReportView.step localeCompare data v e = Some v' ->
  viewInvariant data v -> viewInvariant data v'.
Proof.
  unfold ReportView.step.
  destruct (ReportView.groupsOf localeCompare data v) as [groups |] eqn:Hg;
    [| discriminate].
  intros Hstep (Hcrit & Hhigh & Hnd & Hsub).
  destruct e as [| | | vm | field | table | |].
  - injection Hstep as <-. repeat split; simpl; try discriminate; assumption.
  - injection Hstep as <-. repeat split; simpl; try discriminate; assumption.
  - destruct (negb (isAll (riskFilter v))); [| discriminate].
    injection Hstep as <-. repeat split; simpl; try discriminate; assumption.
  - destruct (isAll (riskFilter v)) eqn:Hall; [| discriminate].
    injection Hstep as <-. repeat split; simpl; try assumption.
    intros H. rewrite H in Hall. discriminate Hall.
  - destruct (ReportView.flatShown v); [| discriminate].
    injection Hstep as <-. unfold ReportView.handleSort.
    destruct (ReportView.sameField (sortField v) field);
      repeat split; simpl; assumption.
  - destruct (ReportView.groupedShown v) eqn:Hshown; [| discriminate].
    destruct (setHas (map fst (entries groups)) table) eqn:Hhas; [| discriminate].
    injection Hstep as <-.
    split; [exact Hcrit |]. split; [exact Hhigh |].
    split; [apply toggleTable_NoDup |].
    intros t Ht. apply toggleTable_In in Ht.
    destruct (t =? table)%string eqn:Et; [| now apply Hsub].
    apply String.eqb_eq in Et. subst t.
    apply (groupsOf_keys v groups table Hg).
    apply (proj1 (setHas_In _ _)). exact Hhas.
  - destruct (ReportView.groupedShown v); [| discriminate].
    injection Hstep as <-. simpl.
    split; [exact Hcrit |]. split; [exact Hhigh |].
    split; [apply newSet_NoDup |].
    intros t Ht. apply (proj1 (newSet_In _ _)) in Ht.
    exact (groupsOf_keys v groups t Hg Ht).
  - destruct (ReportView.groupedShown v); [| discriminate].
    injection Hstep as <-. simpl.
    split; [exact Hcrit |]. split; [exact Hhigh |].
    split; [constructor |]. intros t [].
Qed.

Lemma initialView_viewInvariant : viewInvariant data initialView.
Proof.
  repeat split; simpl; try discriminate; [constructor | intros t []].
Qed.

Lemma exec_viewInvariant (clicks : list ReportView.Event) :
  forall v v' : View,
  ReportView.exec localeCompare data v clicks = Some v' ->
  viewInvariant data v -> viewInvariant data v'.
Proof.
  induction clicks as [| e clicks IH]; intros v v' Hexec Hinv; simpl in Hexec.
  - now injection Hexec as <-.
  - destruct (ReportView.step localeCompare data v e) as [v1 |] eqn:Hstep;
      [| discriminate].
    apply (IH v1 v' Hexec). now apply (step_viewInvariant v v1 e).
Qed.

(** No sequence of clicks on the report's controls breaks it or brings it
    into an odd state.  If the report renders as first shown, then after
    every sequence of clicks it still renders, with exactly one of the
    grouped and the flat view; the risk filter is never [critical] (nothing
    selects it); the high-risk filter always comes with the flat mode; and
    the expanded tables are distinct tables of the scan's findings. *)
Theorem clicks_keep_report_consistent :
  forall (clicks : list ReportView.Event) (v : View),
  (exists r0, render localeCompare data initialView = Normal r0) ->
  ReportView.exec localeCompare data initialView clicks = Some v ->
  (exists r, render localeCompare data v = Normal r
             /\ (groupedView r = None <-> flatView r <> None))
  /\ riskFilter v <> RiskFilter.critical
  /\ (riskFilter v = RiskFilter.high -> viewMode v = ViewMode.flat)
  /\ NoDup (expandedTables v)
  /\ (forall t, In t (expandedTables v) ->
      In t (map PIIFinding.table (ScanResponse.findings data))).
Proof.
  intros clicks v H0 Hexec. split.
  - destruct (render_initial_then_always v H0) as [r Hr].
    exists r. split; [exact Hr |].
    unfold render in Hr. destruct (groupedFindings _); [| discriminate].
    injection Hr as <-. simpl.
    destruct (isGrouped (viewMode v)), (isAll (riskFilter v)); simpl;
      split; congruence.
  - apply (exec_viewInvariant clicks initialView v Hexec).
    apply initialView_viewInvariant.
Qed.

(** Expand All opens every group of the grouped view and Collapse All closes
    every one; neither changes which groups there are. *)
Theorem expand_all_opens_every_group :
  forall (v : View) (groups : Groups),
  ReportView.groupsOf localeCompare data v = Some groups ->
  ReportView.groupedShown v = true ->
  (exists r gs,
     render localeCompare data (ReportView.expandAll groups v) = Normal r
     /\ groupedView r = Some gs
     /\ map groupTable gs = map fst (entries groups)
     /\ map groupFindings gs = map snd (entries groups)
     /\ Forall (fun g => groupExpanded g = true) gs)
  /\ (exists r gs,
        render localeCompare data (ReportView.collapseAll v) = Normal r
        /\ groupedView r = Some gs
        /\ map groupTable gs = map fst (entries groups)
        /\ map groupFindings gs = map snd (entries groups)
        /\ Forall (fun g => groupExpanded g = false) gs).
Proof.
  intros v groups Hg Hshown. unfold ReportView.groupsOf in Hg.
  unfold ReportView.groupedShown in Hshown.
  unfold render, ReportView.expandAll, ReportView.collapseAll,
    ReportView.setExpanded. cbn [sortField sortAsc riskFilter viewMode].
  destruct (groupedFindings _) as [g |]; [| discriminate].
  injection Hg as ->. rewrite Hshown.
  split; eexists; eexists; (split; [reflexivity |]); cbn [groupedView];
    (split; [reflexivity |]); rewrite !map_map; cbn [renderGroup groupTable groupFindings];
    (split; [reflexivity |]); (split; [reflexivity |]);
    apply Forall_forall; intros grp Hin; apply in_map_iff in Hin;
    destruct Hin as ([k fs] & <- & Hin); cbn.
  - apply (proj2 (setHas_In _ _)), newSet_In.
    change k with (fst (k, fs)). now apply in_map.
  - reflexivity.
Qed.

End ViewTraces.

Section ViewTraceInstances.
Import Js ComplianceReport Spec.

(** An instance: on the scan with findings of two tables, all groups are
    expanded, one is closed again, the high-risk card and then the Confidence
    header are clicked, and the filter badge is dismissed. *)
Lemma clicks_on_mixed_scan :
  exists v : View,
    ReportView.exec Samples.codeUnitCompare Samples.mixedScan initialView
      Samples.reportClicks = Some v
    /\ riskFilter v <> RiskFilter.critical
    /\ NoDup (expandedTables v)
    /\ expandedTables v = ["orders"].
Proof.
  pose (v := {| sortField := SortField.confidence; sortAsc := true;
                riskFilter := RiskFilter.all; viewMode := ViewMode.grouped;
                expandedTables := ["orders"] |}).
  assert (Hexec : ReportView.exec Samples.codeUnitCompare Samples.mixedScan
                    initialView Samples.reportClicks = Some v)
    by (vm_compute; reflexivity).
  assert (H0 : exists r0, render Samples.codeUnitCompare Samples.mixedScan
                            initialView = Normal r0)
    by (eexists; vm_compute; reflexivity).
  destruct (clicks_keep_report_consistent Samples.codeUnitCompare Samples.mixedScan
              Samples.reportClicks v H0 Hexec) as (_ & Hcrit & _ & Hnd & _).
  exists v. repeat split; assumption.
Defined.

(** An instance: Expand All on the same scan as first shown. *)
Lemma expand_all_on_mixed_scan :
  exists r gs,
    render Samples.codeUnitCompare Samples.mixedScan
      (ReportView.expandAll
         [ ("orders", [ Samples.finding "orders" "card" "credit_card" "critical"
                          (99 # 100) ]);
           ("users", [ Samples.usersEmail;
                       Samples.finding "users" "phone" "phone_number" "medium"
                         (80 # 100) ]) ]
         initialView) = Normal r
    /\ groupedView r = Some gs
    /\ map groupTable gs = ["orders"; "users"]
    /\ Forall (fun g => groupExpanded g = true) gs.
Proof.
  destruct (expand_all_opens_every_group Samples.codeUnitCompare Samples.mixedScan
              initialView _ eq_refl eq_refl)
    as [(r & gs & Hr & Hgs & Htables & _ & Hall) _].
  exists r, gs. repeat split; assumption.
Defined.

End ViewTraceInstances.

Section HeaderClicks.
Import Js ComplianceReport Spec.
Variable localeCompare : string -> string -> Z.

Lemma sameField_eq (f1 f2 : SortField.t) :
  ReportView.sameField f1 f2 = true <-> f1 = f2.
Proof.
  destruct f1, f2; simpl; split; congruence.
Qed.

Lemma handleSort_field (field : SortField.t) (v : View) :
  sortField (ReportView.handleSort field v) = field.
Proof.
  unfold ReportView.handleSort.
  destruct (ReportView.sameField (sortField v) field) eqn:E; [| reflexivity].
  now apply sameField_eq in E.
Qed.

(** A click on a column header of the flat table sorts the table by that
    column: ascending when the column was not the active one, otherwise with
    the direction flipped; the rows then stand in that order.  Exactly the
    clicked header carries an arrow, the up arrow when ascending.  The risk
    filter, the view mode and the expanded groups are left alone, and two
    further clicks on the same header bring the same state back. *)
Theorem header_click_sorts_by_column :
  forall (findings : list PIIFinding.t) (field : SortField.t) (v : View),
  consistentCompare localeCompare ->
  (forall f, In f findings -> inherited (PIIFinding.risk_level f) = false) ->
  let v' := ReportView.handleSort field v in
  sortField v' = field
  /\ sortAsc v' = (if ReportView.sameField (sortField v) field
                   then negb (sortAsc v) else true)
  /\ StronglySorted (inOrder localeCompare field (sortAsc v'))
       (sortedFindings localeCompare findings (sortField v') (sortAsc v')
          (riskFilter v'))
  /\ (forall f, ReportView.sortArrow f v' = "" <-> f <> field)
  /\ ReportView.sortArrow field v' = (if sortAsc v' then " ▲" else " ▼")
  /\ riskFilter v' = riskFilter v
  /\ viewMode v' = viewMode v
  /\ expandedTables v' = expandedTables v
  /\ ReportView.handleSort field (ReportView.handleSort field v') = v'.
Proof.
  intros findings field v Hc Hown v'.
  assert (Hf : sortField v' = field) by apply handleSort_field.
  assert (Hsame : ReportView.sameField field field = true) by now apply sameField_eq.
  split; [exact Hf |]. split; [| split; [| split; [| split; [| split; [| split; [| split]]]]]].
  - unfold v', ReportView.handleSort.
    now destruct (ReportView.sameField (sortField v) field).
  - rewrite Hf. now apply sortedFindings_inOrder.
  - intros f. unfold ReportView.sortArrow. rewrite Hf.
    destruct (ReportView.sameField field f) eqn:E.
    + apply sameField_eq in E. subst f.
      destruct (sortAsc v'); split; try discriminate; congruence.
    + split; [| reflexivity]. intros _ ->. congruence.
  - unfold ReportView.sortArrow. now rewrite Hf, Hsame.
  - unfold v', ReportView.handleSort.
    now destruct (ReportView.sameField (sortField v) field).
  - unfold v', ReportView.handleSort.
    now destruct (ReportView.sameField (sortField v) field).
  - unfold v', ReportView.handleSort.
    now destruct (ReportView.sameField (sortField v) field).
  - unfold ReportView.handleSort at 1 2. cbn [sortField sortAsc riskFilter viewMode expandedTables].
    rewrite Hf, Hsame. cbn [sortField sortAsc riskFilter viewMode expandedTables].
    rewrite Hsame, negb_involutive. destruct v' as [sf sa rf vm ex]. simpl in Hf.
    now subst sf.
Qed.

End HeaderClicks.

Section HeaderClickInstance.
Import Js ComplianceReport Spec.

(** An instance: the Confidence header clicked on the report as first shown. *)
Lemma header_click_confidence :
  StronglySorted (inOrder Samples.codeUnitCompare SortField.confidence true)
    (sortedFindings Samples.codeUnitCompare Samples.mixedTables
       SortField.confidence true RiskFilter.all)
  /\ ReportView.sortArrow SortField.confidence
       (ReportView.handleSort SortField.confidence initialView) = " ▲".
Proof.
  destruct (header_click_sorts_by_column Samples.codeUnitCompare Samples.mixedTables
              SortField.confidence initialView)
    as (_ & _ & Hsorted & _ & Harrow & _).
  - exact codeUnitCompare_consistent.
  - intros f [<- | [<- | [<- | []]]]; reflexivity.
  - split; [exact Hsorted | exact Harrow].
Defined.

End HeaderClickInstance.

(* ===================================================================== *)
(** * Display helpers and download links *)
(* ===================================================================== *)

Section DisplayFacts.
Import Js ComplianceReport Spec Display.

Lemma isWordChar_toUpperCase (c : ascii) :
  isWordChar (toUpperCase c) = isWordChar c.
Proof.
  destruct c as [[] [] [] [] [] [] [] []]; reflexivity.
Qed.

Lemma toUpperCase_twice (c : ascii) : toUpperCase (toUpperCase c) = toUpperCase c.
Proof.
  destruct c as [[] [] [] [] [] [] [] []]; reflexivity.
Qed.

Lemma toUpperCase_underscore (c : ascii) :
  isWordChar c = true -> (c =? "_")%char = false ->
  (toUpperCase c =? "_")%char = false.
Proof.
  destruct c as [[] [] [] [] [] [] [] []]; intros H1 H2; try reflexivity;
    try discriminate H1; discriminate H2.
Qed.

Lemma upperWordStarts_length (b : bool) (t : string) :
  String.length (upperWordStarts b t) = String.length t.
Proof.
  revert b. induction t as [| c t IH]; intros b; simpl; [reflexivity |].
  now rewrite IH.
Qed.

Lemma replaceUnderscores_length (t : string) :
  String.length (replaceUnderscores t) = String.length t.
Proof.
  induction t as [| c t IH]; simpl; [reflexivity |]. now rewrite IH.
Qed.

Lemma replaceUnderscores_noUnderscore (t : string) :
  noUnderscore (replaceUnderscores t) = true.
Proof.
  induction t as [| c t IH]; simpl; [reflexivity |].
  rewrite IH, andb_true_r. now destruct (c =? "_")%char eqn:E; [| rewrite E].
Qed.

Lemma replaceUnderscores_id (t : string) :
  noUnderscore t = true -> replaceUnderscores t = t.
Proof.
  induction t as [| c t IH]; simpl; [reflexivity |].
  intros H. apply andb_true_iff in H. destruct H as [Hc Ht].
  apply negb_true_iff in Hc. now rewrite Hc, IH.
Qed.

Lemma upperWordStarts_noUnderscore (b : bool) (t : string) :
  noUnderscore t = true -> noUnderscore (upperWordStarts b t) = true.
Proof.
  revert b. induction t as [| c t IH]; intros b; simpl; [reflexivity |].
  intros H. apply andb_true_iff in H. destruct H as [Hc Ht].
  apply negb_true_iff in Hc. rewrite (IH _ Ht), andb_true_r.
  apply negb_true_iff.
  destruct (isWordChar c) eqn:Hw, b; simpl; try exact Hc.
  now apply toUpperCase_underscore.
Qed.

Lemma upperWordStarts_twice (b : bool) (t : string) :
  upperWordStarts b (upperWordStarts b t) = upperWordStarts b t.
Proof.
  revert b. induction t as [| c t IH]; intros b; simpl; [reflexivity |].
  destruct (isWordChar c) eqn:Hw, b; simpl;
    rewrite ?isWordChar_toUpperCase, ?Hw; simpl;
    rewrite ?toUpperCase_twice, IH; reflexivity.
Qed.

(** The display name of a PII type has the length of the type's name and
    holds no underscore, and formatting a display name again changes
    nothing. *)
Theorem formatPII_is_a_display_name :
  forall t : string,
  String.length (formatPII t) = String.length t
  /\ noUnderscore (formatPII t) = true
  /\ formatPII (formatPII t) = formatPII t.
Proof.
  intros t. unfold formatPII. split; [| split].
  - now rewrite upperWordStarts_length, replaceUnderscores_length.
  - apply upperWordStarts_noUnderscore, replaceUnderscores_noUnderscore.
  - rewrite (replaceUnderscores_id (upperWordStarts false (replaceUnderscores t))).
    + apply upperWordStarts_twice.
    + apply upperWordStarts_noUnderscore, replaceUnderscores_noUnderscore.
Qed.

End DisplayFacts.

Section DownloadLinks.
Import Js.

Lemma append_length (a b : string) :
  String.length (a ++ b) = (String.length a + String.length b)%nat.
Proof.
  induction a as [| c a IH]; simpl; [reflexivity |]. now rewrite IH.
Qed.

Lemma append_cancel_l (a b c : string) : (a ++ b = a ++ c)%string -> b = c.
Proof.
  induction a as [| x a IH]; simpl; intros H; [exact H |].
  injection H as H. now apply IH.
Qed.

(** Two strings with tails of equal length are equal part by part. *)
Lemma append_same_length (a b s s' : string) :
  String.length s = String.length s' ->
  (a ++ s = b ++ s')%string -> a = b /\ s = s'.
Proof.
  intros Hlen. revert b. induction a as [| x a IH]; intros [| y b]; simpl; intros H.
  - now split.
  - exfalso. apply (f_equal String.length) in H. simpl in H.
    rewrite append_length in H. lia.
  - exfalso. apply (f_equal String.length) in H. simpl in H.
    rewrite append_length in H. lia.
  - injection H as -> H. destruct (IH b H) as [-> ->]. now split.
Qed.

Variable VITE_API_URL : option string.

(** The download links tell scans and documents apart: the report links of
    two scans are equal only for the same scan id, likewise the migration
    script links, and a report link is never a script link.  With no
    [VITE_API_URL] set, or an empty one, the links are relative to
    [/api/v1]. *)
Theorem download_links_tell_scans_apart :
  forall id1 id2 : string,
  (Api.getReportUrl VITE_API_URL id1 = Api.getReportUrl VITE_API_URL id2
   <-> id1 = id2)
  /\ (Api.getScriptUrl VITE_API_URL id1 = Api.getScriptUrl VITE_API_URL id2
      <-> id1 = id2)
  /\ Api.getReportUrl VITE_API_URL id1 <> Api.getScriptUrl VITE_API_URL id2
  /\ (VITE_API_URL = None \/ VITE_API_URL = Some "" ->
      Api.getReportUrl VITE_API_URL id1 = ("/api/v1/scan/" ++ id1 ++ "/report")%string
      /\ Api.getScriptUrl VITE_API_URL id1
         = ("/api/v1/scan/" ++ id1 ++ "/script")%string).
Proof.
  intros id1 id2. unfold Api.getReportUrl, Api.getScriptUrl.
  split; [| split; [| split]].
  - split; [| now intros ->]. intros H.
    apply append_cancel_l, append_cancel_l in H.
    now apply append_same_length in H.
  - split; [| now intros ->]. intros H.
    apply append_cancel_l, append_cancel_l in H.
    now apply append_same_length in H.
  - intros H. apply append_cancel_l, append_cancel_l in H.
    apply append_same_length in H; [| reflexivity].
    destruct H as [_ H]. discriminate H.
  - intros [-> | ->]; split; reflexivity.
Qed.

End DownloadLinks.

